(** * The lifecycle bridge of [src/ai_bridge.py]

    A shallow embedding of the class [AIFullLifecycleBridge]: its three
    attributes, its nine handlers plus [run_command], the dispatcher
    [execute_ai_instruction] and the body of the monitoring thread.

    Python values that reach the bridge come from [json.loads]; the
    external collaborators (file system, clock, shell, HTTP client) are
    modelled as follows.
    - The file system is a finite map from absolute paths (lists of
      names) to nodes.  There are no symbolic links and no permissions.
    - The clock, the shell and the HTTP client are oracles, indexed by the
      number of effects observed so far, so that two calls may answer
      differently.  What a child process does to the file system is not
      modelled.
    - Every effect that is not visible in the file system is recorded in
      a trace: log records appended, commands run, HTTP requests sent,
      threads started, sleeps and prints. *)

From Stdlib Require Import Ascii String.
From stdpp Require Import gmap strings list pretty.

Local Open Scope string_scope.
Local Open Scope list_scope.

(** ** Python values *)

(** The values [json.loads] produces, without floating-point numbers. A
    dictionary keeps its insertion order and has distinct keys. *)
#[warnings="-register-all"]
Inductive pyval : Type :=
| PNone
| PBool (b : bool)
| PInt (z : Z)
| PStr (s : string)
| PList (l : list pyval)
| PDict (d : list (string * pyval)).

(** [type(v).__name__] *)
Definition type_name (v : pyval) : string :=
  match v with
  | PNone => "NoneType"
  | PBool _ => "bool"
  | PInt _ => "int"
  | PStr _ => "str"
  | PList _ => "list"
  | PDict _ => "dict"
  end.

(** [bool(v)] *)
Definition truthy (v : pyval) : bool :=
  match v with
  | PNone => false
  | PBool b => b
  | PInt z => negb (z =? 0)%Z
  | PStr s => negb (s =? "")
  | PList l => match l with [] => false | _ => true end
  | PDict d => match d with [] => false | _ => true end
  end.

(** [v == s] for a string literal [s] *)
Definition py_eq_str (v : pyval) (s : string) : bool :=
  match v with
  | PStr t => t =? s
  | _ => false
  end.

(** The exceptions the model raises.  All of them are subclasses of
    [Exception]. *)
Inductive os_error := FileNotFoundError | FileExistsError | NotADirectoryError | IsADirectoryError.

Inductive exn : Type :=
| KeyError (key : string)
| TypeError (msg : string)
| AttributeError (msg : string)
| OSError (e : os_error) (path : string)
| ExternalError (msg : string).

Definition nl : string := String "010"%char EmptyString.
Definition dquote : string := String "034"%char EmptyString.

Definition os_error_text (e : os_error) : string :=
  match e with
  | FileNotFoundError => "[Errno 2] No such file or directory"
  | FileExistsError => "[Errno 17] File exists"
  | NotADirectoryError => "[Errno 20] Not a directory"
  | IsADirectoryError => "[Errno 21] Is a directory"
  end.

(** [str(e)].  A [KeyError] prints the [repr] of its key; the keys the
    bridge looks up are the literals of [execute_ai_instruction], whose
    [repr] is the key between single quotes.  The path of an [OSError]
    is quoted the same way. *)
Definition exn_str (e : exn) : string :=
  match e with
  | KeyError k => "'" +:+ k +:+ "'"
  | TypeError msg => msg
  | AttributeError msg => msg
  | OSError e path => os_error_text e +:+ ": '" +:+ path +:+ "'"
  | ExternalError msg => msg
  end.

Fixpoint dict_get (k : string) (d : list (string * pyval)) : option pyval :=
  match d with
  | [] => None
  | (k', v) :: d' => if k' =? k then Some v else dict_get k d'
  end.

(** [v[k]] for a string literal [k] *)
Definition py_getitem (v : pyval) (k : string) : exn + pyval :=
  match v with
  | PDict d =>
      match dict_get k d with
      | Some x => inr x
      | None => inl (KeyError k)
      end
  | PStr _ => inl (TypeError "string indices must be integers, not 'str'")
  | PList _ => inl (TypeError "list indices must be integers or slices, not str")
  | _ => inl (TypeError ("'" +:+ type_name v +:+ "' object is not subscriptable"))
  end.

(** [needle in s] *)
Fixpoint contains (needle s : string) : bool :=
  String.prefix needle s ||
  match s with
  | EmptyString => false
  | String _ s' => contains needle s'
  end.

(** ** Paths *)

Definition is_slash (c : ascii) : bool := Ascii.eqb c "/"%char.

Fixpoint has_slash (s : string) : bool :=
  match s with
  | EmptyString => false
  | String c s' => is_slash c || has_slash s'
  end.

Definition starts_with_slash (s : string) : bool :=
  match s with
  | String c _ => is_slash c
  | EmptyString => false
  end.

Fixpoint ends_with_slash (s : string) : bool :=
  match s with
  | EmptyString => false
  | String c EmptyString => is_slash c
  | String _ s' => ends_with_slash s'
  end.

(** [posixpath.join(a, b)] for two strings *)
Definition path_join (a b : string) : string :=
  if starts_with_slash b then b
  else if (a =? "") || ends_with_slash a then a +:+ b
  else a +:+ "/" +:+ b.

(** [p[:p.rfind('/') + 1]] *)
Fixpoint head_part (p : string) : string :=
  match p with
  | EmptyString => EmptyString
  | String c p' => if is_slash c || has_slash p' then String c (head_part p') else EmptyString
  end.

(** [s.rstrip('/')] *)
Fixpoint rstrip_slash (s : string) : string :=
  match s with
  | EmptyString => EmptyString
  | String c s' =>
      let r := rstrip_slash s' in
      if is_slash c && (r =? "") then EmptyString else String c r
  end.

Fixpoint all_slashes (s : string) : bool :=
  match s with
  | EmptyString => true
  | String c s' => is_slash c && all_slashes s'
  end.

(** [posixpath.dirname(p)] *)
Definition dirname (p : string) : string :=
  let head := head_part p in
  if negb (head =? "") && negb (all_slashes head) then rstrip_slash head else head.

(** The components of a path: [p.split('/')] *)
Fixpoint split_slash (s : string) : list string :=
  match s with
  | EmptyString => [EmptyString]
  | String c s' =>
      if is_slash c then EmptyString :: split_slash s'
      else match split_slash s' with
           | h :: t => String c h :: t
           | [] => [String c EmptyString]
           end
  end.

(** ** The file system *)

Inductive node := Dir | File (content : string).

Abbreviation filesys := (gmap (list string) node).

(** The root directory always exists. *)
Definition node_at (fs : filesys) (p : list string) : option node :=
  match p with
  | [] => Some Dir
  | _ => fs !! p
  end.

Definition stays (c : string) : bool := (c =? "") || (c =? ".").

(** Path resolution through existing directories, from directory [cur]. *)
Fixpoint walk (fs : filesys) (cur : list string) (cs : list string) : os_error + list string :=
  match cs with
  | [] => inr cur
  | c :: cs' =>
      if stays c then walk fs cur cs'
      else if c =? ".." then walk fs (removelast cur) cs'
      else match node_at fs (cur ++ [c]) with
           | Some Dir => walk fs (cur ++ [c]) cs'
           | Some (File _) => inl NotADirectoryError
           | None => inl FileNotFoundError
           end
  end.

(** [os.makedirs(_, exist_ok=True)] on the components of its argument:
    every missing directory on the way is created, a regular file on the
    way is an error. *)
Fixpoint mkdirs (fs : filesys) (cur : list string) (cs : list string) : os_error + filesys :=
  match cs with
  | [] => inr fs
  | c :: cs' =>
      if stays c then mkdirs fs cur cs'
      else if c =? ".." then mkdirs fs (removelast cur) cs'
      else match node_at fs (cur ++ [c]) with
           | Some Dir => mkdirs fs (cur ++ [c]) cs'
           | Some (File _) =>
               inl (if bool_decide (cs' = []) then FileExistsError else NotADirectoryError)
           | None => mkdirs (<[cur ++ [c] := Dir]> fs) (cur ++ [c]) cs'
           end
  end.

Definition start_dir (cwd : list string) (p : string) : list string :=
  if starts_with_slash p then [] else cwd.

Definition os_makedirs (fs : filesys) (cwd : list string) (p : string) : os_error + filesys :=
  if p =? "" then inl FileNotFoundError
  else mkdirs fs (start_dir cwd p) (split_slash p).

(** The file a path names when it is opened for writing or appending:
    its directory must exist and the path must not name a directory. *)
Definition resolve_file (fs : filesys) (cwd : list string) (p : string) : os_error + list string :=
  if p =? "" then inl FileNotFoundError
  else
    let cs := split_slash p in
    match walk fs (start_dir cwd p) (removelast cs) with
    | inl e => inl e
    | inr d =>
        let name := List.last cs "" in
        if stays name || (name =? "..") then inl IsADirectoryError
        else match node_at fs (d ++ [name]) with
             | Some Dir => inl IsADirectoryError
             | _ => inr (d ++ [name])
             end
    end.

Definition read_file (fs : filesys) (cwd : list string) (p : string) : option string :=
  match resolve_file fs cwd p with
  | inr f => match fs !! f with Some (File c) => Some c | _ => None end
  | inl _ => None
  end.

(** ** The bridge and its world *)

Inductive event : Type :=
| EvPrint (text : string)
| EvLog (record : string)
| EvShell (command : pyval)
| EvHttpGet (url : pyval)
| EvThreadStart
| EvSleep (seconds : nat).

(** The three attributes of [AIFullLifecycleBridge], then the process's
    working directory, the file system and the effects so far. *)
Record world : Type := World {
  repo_path : string;
  deployment_url : pyval;
  monitoring_active : bool;
  cwd : list string;
  fs : filesys;
  trace : list event
}.

Definition set_deployment_url (u : pyval) (w : world) : world :=
  World (repo_path w) u (monitoring_active w) (cwd w) (fs w) (trace w).

Definition set_monitoring_active (b : bool) (w : world) : world :=
  World (repo_path w) (deployment_url w) b (cwd w) (fs w) (trace w).

Definition set_fs (f : filesys) (w : world) : world :=
  World (repo_path w) (deployment_url w) (monitoring_active w) (cwd w) f (trace w).

Definition emit (e : event) (w : world) : world :=
  World (repo_path w) (deployment_url w) (monitoring_active w) (cwd w) (fs w) (trace w ++ [e]).

(** A computation either returns or raises, and leaves a world behind in
    both cases. *)
Definition M (A : Type) : Type := world -> (exn + A) * world.

Definition ret {A} (a : A) : M A := fun w => (inr a, w).

Definition raise {A} (e : exn) : M A := fun w => (inl e, w).

Definition bind {A B} (m : M A) (k : A -> M B) : M B :=
  fun w =>
    match m w with
    | (inl e, w') => (inl e, w')
    | (inr a, w') => k a w'
    end.

(** [try: m except Exception as e: h e] *)
Definition try_except {A} (m : M A) (h : exn -> M A) : M A :=
  fun w =>
    match m w with
    | (inl e, w') => h e w'
    | (inr a, w') => (inr a, w')
    end.

Definition lift {A} (r : exn + A) : M A := fun w => (r, w).

Definition effect (f : world -> world) : M unit := fun w => (inr tt, f w).

Notation "x <- m ;; k" := (bind m (fun x => k))
  (at level 100, m at next level, right associativity).
Notation "m ;;; k" := (bind m (fun _ => k))
  (at level 100, right associativity).

Record completed_process : Type := Completed {
  stdout : string;
  stderr : string;
  returncode : Z
}.

Inductive http_outcome : Type :=
| Response (status_code : Z)
| RequestFailed (msg : string).

Definition log_file : string := "ai_lifecycle.log".

(** The collaborators the bridge cannot see into. *)
Class Environment : Type := {
  (** [str(datetime.now())] at the n-th observation *)
  clock : nat -> string;
  (** [datetime.now().strftime("%Y%m%d_%H%M%S")] at the n-th observation *)
  clock_stamp : nat -> string;
  (** [subprocess.run(command, shell=True, capture_output=True, text=True,
      cwd=dir)]: the completed process, or the exception it raises *)
  shell : pyval -> string -> nat -> exn + completed_process;
  (** [requests.get(url, timeout=10)] *)
  http : pyval -> nat -> http_outcome;
  (** [str(v)] for a value that is not a string *)
  render : pyval -> string
}.

Section Bridge.

Context {env : Environment}.

(** What an f-string puts in place of [{v}]. *)
Definition py_str (v : pyval) : string :=
  match v with
  | PStr s => s
  | _ => render v
  end.

(** [log_status]: one record appended to [ai_lifecycle.log] in the
    process's working directory. *)
Definition log_status (status : string) : M unit :=
  fun w =>
    match resolve_file (fs w) (cwd w) log_file with
    | inl e => (inl (OSError e log_file), w)
    | inr f =>
        let old := match fs w !! f with Some (File c) => c | _ => "" end in
        let record := clock (length (trace w)) +:+ ": " +:+ status +:+ nl in
        (inr tt, emit (EvLog record) (set_fs (<[f := File (old +:+ record)]> (fs w)) w))
    end.

Definition print (text : string) : M unit := effect (emit (EvPrint text)).

Definition setup_bridge : M unit :=
  print "🤖 AI FULL-LIFECYCLE BRIDGE ACTIVATED" ;;;
  (fun w => print ("📍 Repo: " +:+ repo_path w) w) ;;;
  print "🔧 Capabilities: Develop → Deploy → Monitor → Evolve" ;;;
  log_status "FULL_LIFECYCLE_ACTIVE".

(** [os.getcwd()] *)
Definition getcwd (dir : list string) : string := "/" +:+ String.concat "/" dir.

(** [AIFullLifecycleBridge()] in a process whose working directory is
    [dir]. *)
Definition init (dir : list string) (files : filesys) : (exn + unit) * world :=
  setup_bridge (World (getcwd dir) PNone false dir files []).

(** [os.path.join(self.repo_path, filepath)] *)
Definition join_repo (filepath : pyval) : M string :=
  fun w =>
    match filepath with
    | PStr p => (inr (path_join (repo_path w) p), w)
    | _ => (inl (TypeError ("join() argument must be str, bytes, or os.PathLike object, not '"
                            +:+ type_name filepath +:+ "'")), w)
    end.

Definition makedirs (p : string) : M unit :=
  fun w =>
    match os_makedirs (fs w) (cwd w) p with
    | inl e => (inl (OSError e p), w)
    | inr fs' => (inr tt, set_fs fs' w)
    end.

(** [with open(p, 'w') as f: f.write(content)]: the file is created or
    truncated when it is opened, before the content is looked at. *)
Definition write_file (p : string) (content : pyval) : M unit :=
  fun w =>
    match resolve_file (fs w) (cwd w) p with
    | inl e => (inl (OSError e p), w)
    | inr f =>
        match content with
        | PStr c => (inr tt, set_fs (<[f := File c]> (fs w)) w)
        | _ => (inl (TypeError ("write() argument must be str, not " +:+ type_name content)),
                set_fs (<[f := File ""]> (fs w)) w)
        end
    end.

Definition create_file (filepath content : pyval) : M string :=
  full_path <- join_repo filepath ;;
  makedirs (dirname full_path) ;;;
  write_file full_path content ;;;
  log_status ("FILE_CREATED: " +:+ py_str filepath) ;;;
  ret ("✅ Created: " +:+ py_str filepath).

Definition subprocess_run (command : pyval) : M completed_process :=
  fun w =>
    match shell command (repo_path w) (length (trace w)) with
    | inl e => (inl e, w)
    | inr r => (inr r, emit (EvShell command) w)
    end.

(** The conditional expression of [run_command]. *)
Definition command_output (result : completed_process) : string :=
  if negb (stdout result =? "") || negb (stderr result =? "")
  then "OUT: " +:+ stdout result +:+ nl +:+ "ERR: " +:+ stderr result
  else "Command executed".

Definition run_command (command : pyval) : M string :=
  result <- subprocess_run command ;;
  let output := command_output result in
  log_status ("COMMAND_RUN: " +:+ py_str command) ;;;
  ret output.

Definition assign_deployment_url (u : pyval) : M unit := effect (set_deployment_url u).

Definition deployment_url_str : M string := fun w => (inr (py_str (deployment_url w)), w).

Definition deploy_project (deploy_type : pyval) : M string :=
  log_status ("DEPLOYMENT_STARTED: " +:+ py_str deploy_type) ;;;
  if py_eq_str deploy_type "github_pages" then
    result <- run_command (PStr "gh pages deploy --branch main") ;;
    assign_deployment_url (PStr "https://yourusername.github.io/your-repo") ;;;
    u <- deployment_url_str ;;
    ret ("✅ GitHub Pages Deployed: " +:+ u)
  else if py_eq_str deploy_type "docker" then
    result <- run_command (PStr "docker build -t app . && docker run -d -p 3000:3000 app") ;;
    assign_deployment_url (PStr "http://localhost:3000") ;;;
    u <- deployment_url_str ;;
    ret ("✅ Docker Deployed: " +:+ u)
  else if py_eq_str deploy_type "vercel" then
    result <- run_command (PStr "npx vercel --prod") ;;
    assign_deployment_url (PStr "https://your-app.vercel.app") ;;;
    u <- deployment_url_str ;;
    ret ("✅ Vercel Deployed: " +:+ u)
  else
    ret ("✅ Deployment initiated: " +:+ py_str deploy_type).

(** [requests.get(self.deployment_url, timeout=10).status_code] *)
Definition requests_get : M Z :=
  fun w =>
    let w' := emit (EvHttpGet (deployment_url w)) w in
    match http (deployment_url w) (length (trace w)) with
    | Response code => (inr code, w')
    | RequestFailed msg => (inl (ExternalError msg), w')
    end.

Definition check_application_health : M string :=
  fun w =>
    if negb (truthy (deployment_url w)) then (inr "No deployment URL set", w)
    else
      try_except
        (status_code <- requests_get ;;
         if (status_code =? 200)%Z then ret "✅ Application healthy"
         else ret ("❌ Application issue: HTTP " +:+ pretty status_code))
        (fun e => ret ("❌ Application error: " +:+ exn_str e)) w.

Definition sleep (seconds : nat) : M unit := effect (emit (EvSleep seconds)).

(** One turn of the loop of the closure [monitor]: [true] when the body
    ran, [false] when the flag was found cleared and the loop ends. *)
Definition monitor_iteration : M bool :=
  fun w =>
    if monitoring_active w then
      (health <- check_application_health ;;
       (if contains "ERROR" health then log_status ("HEALTH_ISSUE: " +:+ health) else ret tt) ;;;
       sleep 60 ;;;
       ret true) w
    else (inr false, w).

(** The thread's loop, running alone for at most [fuel] turns. *)
Fixpoint monitor (fuel : nat) : M unit :=
  match fuel with
  | O => ret tt
  | S n => again <- monitor_iteration ;; if (again : bool) then monitor n else ret tt
  end.

Definition start_monitoring (url : pyval) : M string :=
  assign_deployment_url url ;;;
  effect (set_monitoring_active true) ;;;
  effect (emit EvThreadStart) ;;;
  ret ("🔍 Monitoring started: " +:+ py_str url).

Definition auto_fix_issues (issue_type : pyval) : M string :=
  log_status ("AUTO_FIXING: " +:+ py_str issue_type) ;;;
  if py_eq_str issue_type "build_failure" then
    run_command (PStr "npm install || pip install -r requirements.txt") ;;;
    ret "✅ Build dependencies fixed"
  else if py_eq_str issue_type "deployment_failure" then
    deploy_project (PStr "github_pages")
  else if py_eq_str issue_type "database_connection" then
    create_file (PStr "config/fix_database.py")
      (PStr ("import sqlite3" +:+ nl +:+ "# AI-generated database fix" +:+ nl
             +:+ "conn = sqlite3.connect('app.db')" +:+ nl +:+ "print('Database fixed')")) ;;;
    ret "✅ Database issues addressed"
  else
    ret ("✅ Auto-fix attempted for: " +:+ py_str issue_type).

(** [files.items()] *)
Definition dict_items (files : pyval) : M (list (string * pyval)) :=
  match files with
  | PDict d => ret d
  | _ => raise (AttributeError ("'" +:+ type_name files +:+ "' object has no attribute 'items'"))
  end.

(** The [for] loop of [add_feature]. *)
Fixpoint create_files (items : list (string * pyval)) : M unit :=
  match items with
  | [] => ret tt
  | (file_path, content) :: rest =>
      create_file (PStr file_path) content ;;;
      create_files rest
  end.

Definition add_feature (feature_name files : pyval) : M string :=
  log_status ("ADDING_FEATURE: " +:+ py_str feature_name) ;;;
  items <- dict_items files ;;
  create_files items ;;;
  deploy_project (PStr "github_pages") ;;;
  ret ("✅ Feature '" +:+ py_str feature_name +:+ "' added and deployed").

Definition run_tests : M string :=
  result <- run_command (PStr "python -m pytest || npm test || echo 'No tests found'") ;;
  ret ("🧪 Tests executed: " +:+ result).

Definition strftime_now : M string := fun w => (inr (clock_stamp (length (trace w))), w).

Definition backup_project : M string :=
  timestamp <- strftime_now ;;
  run_command (PStr ("git tag backup-" +:+ timestamp)) ;;;
  run_command (PStr "git push --tags") ;;;
  ret ("💾 Backup created: backup-" +:+ timestamp).

Definition git_commit (message : pyval) : M string :=
  run_command (PStr "git add .") ;;;
  run_command (PStr ("git commit -m " +:+ dquote +:+ py_str message +:+ dquote)) ;;;
  run_command (PStr "git push origin main") ;;;
  ret ("✅ Committed: " +:+ py_str message).

Definition getitem (payload : pyval) (key : string) : M pyval := lift (py_getitem payload key).

Definition returning (m : M string) : M (option string) := r <- m ;; ret (Some r).

(** The body of the [try] statement of [execute_ai_instruction].  A
    function that falls off its end returns [None]. *)
Definition dispatch (instruction_type payload : pyval) : M (option string) :=
  if py_eq_str instruction_type "CREATE_FILE" then
    path <- getitem payload "path" ;;
    content <- getitem payload "content" ;;
    returning (create_file path content)
  else if py_eq_str instruction_type "RUN_COMMAND" then
    command <- getitem payload "command" ;;
    returning (run_command command)
  else if py_eq_str instruction_type "DEPLOY_PROJECT" then
    deploy_type <- getitem payload "deploy_type" ;;
    returning (deploy_project deploy_type)
  else if py_eq_str instruction_type "START_MONITORING" then
    url <- getitem payload "url" ;;
    returning (start_monitoring url)
  else if py_eq_str instruction_type "CHECK_HEALTH" then
    returning check_application_health
  else if py_eq_str instruction_type "AUTO_FIX_ISSUES" then
    issue_type <- getitem payload "issue_type" ;;
    returning (auto_fix_issues issue_type)
  else if py_eq_str instruction_type "ADD_FEATURE" then
    feature_name <- getitem payload "feature_name" ;;
    files <- getitem payload "files" ;;
    returning (add_feature feature_name files)
  else if py_eq_str instruction_type "GIT_COMMIT" then
    message <- getitem payload "message" ;;
    returning (git_commit message)
  else if py_eq_str instruction_type "RUN_TESTS" then
    returning run_tests
  else if py_eq_str instruction_type "BACKUP_PROJECT" then
    returning backup_project
  else
    ret None.

Definition execute_ai_instruction (instruction_type payload : pyval) : M (option string) :=
  try_except (dispatch instruction_type payload)
    (fun e => ret (Some ("Error: " +:+ exn_str e))).

(** What can happen to a running bridge: the main loop dispatches an
    instruction, a monitoring thread takes a turn of its loop, or the
    main loop reads [exit] and clears the flag. *)
Inductive step : world -> world -> Prop :=
| step_dispatch instruction_type payload w :
    step w (execute_ai_instruction instruction_type payload w).2
| step_poll w :
    In EvThreadStart (trace w) ->
    step w (monitor_iteration w).2
| step_exit w :
    step w (set_monitoring_active false w).

Definition reachable (w0 w : world) : Prop := rtc step w0 w.

End Bridge.

(** ** The main loop *)

Inductive parse_result : Type :=
| Parsed (v : pyval)
| InvalidJSON
| ParseRaised (e : exn).

(** The terminal and the library calls of [start_ai_lifecycle_bridge]. *)
Class Terminal : Type := {
  (** [input(prompt)] when n effects have been observed: the line read,
      or the exception raised ([EOFError] at the end of the input) *)
  read_line : nat -> exn + string;
  (** [s.strip()] *)
  py_strip : string -> string;
  (** [s.lower()] *)
  py_lower : string -> string;
  (** [json.loads(s)]: the value, [json.JSONDecodeError], or another
      exception *)
  json_loads : string -> parse_result
}.

Section MainLoop.

Context {env : Environment} {terminal : Terminal}.

Definition prompt : string := nl +:+ "📥 PASTE AI LIFECYCLE INSTRUCTION: ".

(** [input(prompt)]: the prompt is written, then a line is read. *)
Definition input : M string :=
  fun w =>
    (read_line (length (trace w)), emit (EvPrint prompt) w).

(** What an f-string puts in place of [{result}]. *)
Definition format_result (result : option string) : string :=
  match result with
  | Some s => s
  | None => "None"
  end.

(** The body of the [try] statement of the loop: [false] stands for
    [break].  A [json.JSONDecodeError] has its own [except] clause. *)
Definition loop_body : M bool :=
  line <- input ;;
  let user_input := py_strip line in
  if py_lower user_input =? "exit" then
    effect (set_monitoring_active false) ;;;
    ret false
  else
    match json_loads user_input with
    | InvalidJSON =>
        print "❌ Invalid JSON. Try again." ;;;
        ret true
    | ParseRaised e => raise e
    | Parsed instruction =>
        action <- getitem instruction "action" ;;
        payload <- getitem instruction "payload" ;;
        result <- execute_ai_instruction action payload ;;
        print ("📤 RESULT: " +:+ format_result result) ;;;
        ret true
    end.

Definition loop_turn : M bool :=
  try_except loop_body (fun e => print ("❌ Error: " +:+ exn_str e) ;;; ret true).

(** [while True], for at most [fuel] turns: [true] when the loop was
    left by [break]. *)
Fixpoint main_loop (fuel : nat) : M bool :=
  match fuel with
  | O => ret false
  | S n => go_on <- loop_turn ;; if (go_on : bool) then main_loop n else ret true
  end.

Definition rule : string := "============================================================".

Definition banner : list string :=
  [nl +:+ rule;
   "🤖 AI FULL-LIFECYCLE BRIDGE READY";
   rule;
   "🚀 Development → Deployment → Monitoring → Evolution";
   "📋 Available Actions:";
   "   CREATE_FILE, DEPLOY_PROJECT, START_MONITORING";
   "   CHECK_HEALTH, AUTO_FIX_ISSUES, ADD_FEATURE";
   "   RUN_TESTS, BACKUP_PROJECT, GIT_COMMIT";
   rule;
   "I will provide JSON instructions. Copy/paste them below:";
   "Type 'exit' to quit";
   rule].

Fixpoint print_all (lines : list string) : M unit :=
  match lines with
  | [] => ret tt
  | line :: rest => print line ;;; print_all rest
  end.

(** [start_ai_lifecycle_bridge()] in a process whose working directory
    is [dir]. *)
Definition start_ai_lifecycle_bridge (fuel : nat) (dir : list string) (files : filesys) :
    (exn + bool) * world :=
  match init dir files with
  | (inl e, w) => (inl e, w)
  | (inr _, w) => (print_all banner ;;; main_loop fuel) w
  end.

End MainLoop.

(** ** Vocabulary of the properties *)

(** The strings [execute_ai_instruction] compares its first argument
    with, in the order of its branches. *)
Definition recognized_actions : list string :=
  ["CREATE_FILE"; "RUN_COMMAND"; "DEPLOY_PROJECT"; "START_MONITORING"; "CHECK_HEALTH";
   "AUTO_FIX_ISSUES"; "ADD_FEATURE"; "GIT_COMMIT"; "RUN_TESTS"; "BACKUP_PROJECT"].

(** The actions the banner of [start_ai_lifecycle_bridge] lists. *)
Definition advertised_actions : list string :=
  ["CREATE_FILE"; "DEPLOY_PROJECT"; "START_MONITORING";
   "CHECK_HEALTH"; "AUTO_FIX_ISSUES"; "ADD_FEATURE";
   "RUN_TESTS"; "BACKUP_PROJECT"; "GIT_COMMIT"].

(** The keys a branch of [execute_ai_instruction] subscripts the payload
    with, in the order of evaluation. *)
Definition required_keys (action : string) : list string :=
  if action =? "CREATE_FILE" then ["path"; "content"]
  else if action =? "RUN_COMMAND" then ["command"]
  else if action =? "DEPLOY_PROJECT" then ["deploy_type"]
  else if action =? "START_MONITORING" then ["url"]
  else if action =? "AUTO_FIX_ISSUES" then ["issue_type"]
  else if action =? "ADD_FEATURE" then ["feature_name"; "files"]
  else if action =? "GIT_COMMIT" then ["message"]
  else [].

(** The first of [keys] that the dictionary lacks. *)
Fixpoint first_missing (keys : list string) (d : list (string * pyval)) : option string :=
  match keys with
  | [] => None
  | k :: keys' =>
      match dict_get k d with
      | None => Some k
      | Some _ => first_missing keys' d
      end
  end.

Definition is_log (e : event) : bool :=
  match e with
  | EvLog _ => true
  | _ => false
  end.

(** The number of log records among some events. *)
Fixpoint log_count (evs : list event) : nat :=
  match evs with
  | [] => 0
  | e :: evs' => (if is_log e then 1 else 0) + log_count evs'
  end.

(** The commands run among some events. *)
Fixpoint commands_run (evs : list event) : list pyval :=
  match evs with
  | [] => []
  | EvShell c :: evs' => c :: commands_run evs'
  | _ :: evs' => commands_run evs'
  end.

(** The effects of a computation that took [w] to [w']. *)
Definition events_since (w w' : world) : list event := drop (length (trace w)) (trace w').







(** The log file can be opened for appending: it is not a directory. *)
Definition log_writable (w : world) : bool :=
  match resolve_file (fs w) (cwd w) log_file with
  | inr _ => true
  | inl _ => false
  end.

(** A name that is neither empty nor [.] nor [..]. *)
Definition plain (c : string) : bool := negb (stays c) && negb (c =? "..").


Definition is_dir (n : option node) : bool :=
  match n with
  | Some Dir => true
  | _ => false
  end.

Definition is_file (n : option node) : bool :=
  match n with
  | Some (File _) => true
  | _ => false
  end.

(** Below directory [cur], no directory of the path [cs] is taken by a
    regular file and its last name is not taken by a directory. *)
Fixpoint way_free (fs : filesys) (cur : list string) (cs : list string) : bool :=
  match cs with
  | [] => true
  | [c] => negb (is_dir (fs !! (cur ++ [c])))
  | c :: cs' => negb (is_file (fs !! (cur ++ [c]))) && way_free fs (cur ++ [c]) cs'
  end.

(** [repo_path] is an absolute path of the process's working directory,
    as [os.getcwd()] returns it. *)
Definition repo_is_cwd (w : world) : bool :=
  starts_with_slash (repo_path w) &&
  match walk (fs w) [] (split_slash (repo_path w)) with
  | inr d => bool_decide (d = cwd w)
  | inl _ => false
  end.

(** The log file exists, as it does once the bridge is constructed. *)
Definition log_exists (w : world) : bool := is_file (fs w !! (cwd w ++ [log_file])).

(** Every proper prefix of the path [cs] below [cur] is a directory. *)
Fixpoint parents_exist (fs : filesys) (cur : list string) (cs : list string) : bool :=
  match cs with
  | [] => true
  | [c] => true
  | c :: cs' => is_dir (fs !! (cur ++ [c])) && parents_exist fs (cur ++ [c]) cs'
  end.

Definition starts_with (p s : string) : bool := String.prefix p s.


(** [w'] comes after [w]: same repository path, same working directory,
    and a trace that continues the one of [w]. *)
Definition extends (w w' : world) : Prop :=
  repo_path w' = repo_path w /\ cwd w' = cwd w /\ exists evs, trace w' = trace w ++ evs.

(** A computation that only ever moves the world forward. *)
Definition steady {A} (m : M A) : Prop := forall w, extends w (m w).2.

(** A computation that appends [n] log records whenever it returns. *)
Definition logging {A} (n : nat) (m : M A) : Prop :=
  forall w a w', m w = (inr a, w') ->
    exists evs, trace w' = trace w ++ evs /\ log_count evs = n.

(** A computation that returns no empty string. *)
Definition nonempty (m : M string) : Prop :=
  forall w s w', m w = (inr s, w') -> s <> "".

(** The components of a path that are not empty. *)
Fixpoint drop_empty (cs : list string) : list string :=
  match cs with
  | [] => []
  | c :: cs' => if c =? "" then drop_empty cs' else c :: drop_empty cs'
  end.

(** The string has a capital E. *)
Fixpoint has_E (s : string) : bool :=
  match s with
  | EmptyString => false
  | String c s' => Ascii.eqb c "E" || has_E s'
  end.


(** ** Vocabulary of the further properties *)

(** A computation all of whose runs are related by [R], whether they
    return or raise. *)
Definition preserves {A} (R : world -> world -> Prop) (m : M A) : Prop :=
  forall w, R w (m w).2.

(** Monitoring that is on stays on. *)
Definition flag_stays (w w' : world) : Prop :=
  monitoring_active w = true -> monitoring_active w' = true.

(** Nothing on the disk is removed or changes its kind, and the bridge
    stays where it is. *)
Definition disk_kept (w w' : world) : Prop :=
  repo_path w' = repo_path w /\ cwd w' = cwd w /\
  forall q, (is_dir (fs w !! q) = true -> is_dir (fs w' !! q) = true) /\
            (is_file (fs w !! q) = true -> is_file (fs w' !! q) = true).

(** The bridge at work without the main loop reading [exit]: an
    instruction is dispatched or a monitoring thread takes a turn. *)
Inductive working {env : Environment} : world -> world -> Prop :=
| working_dispatch instruction_type payload w :
    working w (execute_ai_instruction instruction_type payload w).2
| working_poll w :
    working w (monitor_iteration w).2.



(** The content of the log file, empty when there is none. *)
Definition log_text (files : filesys) (dir : list string) : string :=
  match files !! (dir ++ [log_file]) with
  | Some (File c) => c
  | _ => ""
  end.

(** The number of threads started among some events. *)
Fixpoint thread_starts (evs : list event) : nat :=
  match evs with
  | [] => 0
  | EvThreadStart :: evs' => S (thread_starts evs')
  | _ :: evs' => thread_starts evs'
  end.

(** The number of sleeps among some events. *)
Fixpoint sleeps (evs : list event) : nat :=
  match evs with
  | [] => 0
  | EvSleep _ :: evs' => S (sleeps evs')
  | _ :: evs' => sleeps evs'
  end.

(** The shell runs every command to completion in the directory of [w]. *)
Definition shell_completes {env : Environment} (w : world) : Prop :=
  forall command n, exists r, shell command (repo_path w) n = inr r.


(** The script [auto_fix_issues] writes for [database_connection]. *)
Definition fix_database_script : string :=
  "import sqlite3" +:+ nl +:+ "# AI-generated database fix" +:+ nl
  +:+ "conn = sqlite3.connect('app.db')" +:+ nl +:+ "print('Database fixed')".

(** A terminal at the end of its input. *)
Definition at_end_of_input {terminal : Terminal} : Prop :=
  forall n, exists e, read_line n = inl e.

(** The prints among some events. *)
Fixpoint printed (evs : list event) : list string :=
  match evs with
  | [] => []
  | EvPrint text :: evs' => text :: printed evs'
  | _ :: evs' => printed evs'
  end.

(** ** Sample environments and worlds *)

Definition sample_clock (n : nat) : string := "2024-05-01 12:00:0" +:+ pretty n.

(** Every command exits with [code] and prints nothing; every request is
    answered with [status]. *)
Definition sample_env (code status : Z) : Environment :=
  {| clock := sample_clock;
     clock_stamp := fun n => "20240501_12000" +:+ pretty n;
     shell := fun _ _ _ => inr (Completed "" "" code);
     http := fun _ _ => Response status;
     render := fun _ => "<object>" |}.

(** Every request fails to connect. *)
Definition offline_env : Environment :=
  {| clock := sample_clock;
     clock_stamp := fun n => "20240501_12000" +:+ pretty n;
     shell := fun _ _ _ => inr (Completed "" "" 0);
     http := fun _ _ => RequestFailed "Connection refused";
     render := fun _ => "<object>" |}.

(** A disk that holds the directory [/repo] and nothing else. *)
Definition sample_files : filesys := <[ ["repo"] := Dir ]> ∅.

(** A bridge just constructed in [/repo]. *)
Definition fresh_world : world :=
  World "/repo" PNone false ["repo"]
    (<[ ["repo"; "ai_lifecycle.log"] := File "" ]> (<[ ["repo"] := Dir ]> ∅)) [].

(** The same bridge with a deployment recorded. *)
Definition deployed_world : world := set_deployment_url (PStr "http://localhost:3000") fresh_world.

(** The same bridge being monitored. *)
Definition monitored_world : world :=
  emit EvThreadStart (set_monitoring_active true deployed_world).


(** A terminal that gives [line] at every read and parses whatever it
    is given to [parsed]; lines are clean and in lower case already. *)
Definition sample_terminal (line : string) (parsed : parse_result) : Terminal :=
  {| read_line := fun _ => inr line;
     py_strip := fun s => s;
     py_lower := fun s => s;
     json_loads := fun _ => parsed |}.

(** A terminal whose input is closed. *)
Definition closed_terminal : Terminal :=
  {| read_line := fun _ => inl (ExternalError "EOF when reading a line");
     py_strip := fun s => s;
     py_lower := fun s => s;
     json_loads := fun _ => InvalidJSON |}.

(** ** Strings *)

Lemma prefix_refl (s : string) : String.prefix s s = true.
Proof.
  induction s as [|c s IH]; simpl; [reflexivity|].
  destruct (ascii_dec c c); [exact IH | congruence].
Qed.

Lemma prefix_app (s t : string) : String.prefix s (s +:+ t) = true.
Proof.
  induction s as [|c s IH]; simpl; [destruct t; reflexivity|].
  destruct (ascii_dec c c); [exact IH | congruence].
Qed.

Lemma contains_self (s : string) : contains s s = true.
Proof.
  destruct s as [|c s]; [reflexivity|].
  change (contains (String c s) (String c s))
    with (String.prefix (String c s) (String c s) || contains (String c s) s).
  rewrite prefix_refl. reflexivity.
Qed.

Lemma contains_app_r (needle p : string) : contains needle (p +:+ needle) = true.
Proof.
  induction p as [|c p IH]; simpl.
  - apply contains_self.
  - rewrite IH. apply orb_true_r.
Qed.

Lemma py_eq_str_false (v : pyval) (s : string) : v ≠ PStr s -> py_eq_str v s = false.
Proof.
  destruct v; simpl; try reflexivity.
  intros Hne. apply String.eqb_neq. congruence.
Qed.

Section Properties.

Context {env : Environment}.

(** ** The dispatcher *)


Lemma getitem_missing (d : list (string * pyval)) (k : string) (w : world) :
  dict_get k d = None -> getitem (PDict d) k w = (inl (KeyError k), w).
Proof. intros H. unfold getitem, lift, py_getitem. rewrite H. reflexivity. Qed.

Lemma getitem_present (d : list (string * pyval)) (k : string) (v : pyval) (w : world) :
  dict_get k d = Some v -> getitem (PDict d) k w = (inr v, w).
Proof. intros H. unfold getitem, lift, py_getitem. rewrite H. reflexivity. Qed.

Ltac missing_key :=
  unfold execute_ai_instruction, try_except, dispatch, bind; simpl;
  unfold getitem, lift, py_getitem;
  repeat match goal with
         | H : dict_get _ _ = _ |- _ => rewrite H; clear H
         end;
  reflexivity.

(** C1. An instruction whose payload lacks a key its branch subscripts
    makes [execute_ai_instruction] return the string ["Error: "] followed
    by the text of the [KeyError] of the first such key; nothing is
    raised to the caller, and nothing has been done. *)
Theorem missing_key_is_reported (action : string) (d : list (string * pyval)) (k : string)
    (w : world) :
  first_missing (required_keys action) d = Some k ->
  exists s,
    execute_ai_instruction (PStr action) (PDict d) w = (inr (Some s), w) /\
    s = "Error: " +:+ exn_str (KeyError k) /\
    starts_with "Error:" s = true /\
    In k (required_keys action) /\ dict_get k d = None.
Proof.
  intros Hmiss. exists ("Error: " +:+ exn_str (KeyError k)).
  unfold required_keys in *.
  repeat match type of Hmiss with
         | context [String.eqb action ?a] => destruct (String.eqb_spec action a) as [->|?]
         end;
    simpl in Hmiss;
    repeat match type of Hmiss with
           | context [dict_get ?key d] => destruct (dict_get key d) eqn:?
           end;
    try discriminate; injection Hmiss as <-;
    (split; [|split; [reflexivity | split; [reflexivity | split; [simpl; tauto | assumption]]]]);
    missing_key.
Qed.

(** C7 as amended. An action that is none of the ten strings the
    dispatcher compares with makes it return [None]; no handler runs
    and the world is left as it was. *)
Theorem unrecognized_action_returns_nothing (instruction_type payload : pyval) (w : world) :
  (forall a, In a recognized_actions -> instruction_type <> PStr a) ->
  execute_ai_instruction instruction_type payload w = (inr None, w) /\
  dispatch instruction_type payload w = (inr None, w).
Proof.
  intros Hno.
  assert (Hd : dispatch instruction_type payload w = (inr None, w)).
  { unfold dispatch.
    repeat match goal with
           | |- context [py_eq_str instruction_type ?a] =>
               rewrite (py_eq_str_false instruction_type a) by (apply Hno; simpl; tauto)
           end.
    reflexivity. }
  split; [|exact Hd].
  unfold execute_ai_instruction, try_except. rewrite Hd. reflexivity.
Qed.


(** ** The log file *)

Lemma node_at_snoc (files : filesys) (p : list string) (c : string) :
  node_at files (p ++ [c]) = files !! (p ++ [c]).
Proof. destruct p; reflexivity. Qed.

Lemma resolve_log_file (files : filesys) (dir : list string) :
  resolve_file files dir log_file =
  if is_dir (files !! (dir ++ [log_file])) then inl IsADirectoryError else inr (dir ++ [log_file]).
Proof.
  unfold resolve_file, start_dir, log_file. simpl. rewrite node_at_snoc.
  destruct (files !! (dir ++ ["ai_lifecycle.log"])) as [[|c]|]; reflexivity.
Qed.

Lemma log_writable_spec (w : world) :
  log_writable w = negb (is_dir (fs w !! (cwd w ++ [log_file]))).
Proof.
  unfold log_writable. rewrite resolve_log_file.
  destruct (is_dir _); reflexivity.
Qed.

(** The record [log_status] appends in world [w]. *)
Lemma log_status_writable (status : string) (w : world) :
  log_writable w = true ->
  exists old,
    log_status status w =
    (inr tt,
     emit (EvLog (clock (length (trace w)) +:+ ": " +:+ status +:+ nl))
       (set_fs (<[cwd w ++ [log_file] := File (old +:+ clock (length (trace w)) +:+ ": " +:+ status +:+ nl)]> (fs w)) w)).
Proof.
  intros Hw. rewrite log_writable_spec in Hw. unfold log_status.
  rewrite resolve_log_file. destruct (is_dir _); [discriminate|].
  eexists. reflexivity.
Qed.

Lemma log_status_unwritable (status : string) (w : world) :
  log_writable w = false ->
  log_status status w = (inl (OSError IsADirectoryError log_file), w).
Proof.
  intros Hw. rewrite log_writable_spec in Hw. unfold log_status.
  rewrite resolve_log_file. destruct (is_dir _); [reflexivity|discriminate].
Qed.

(** ** The health check *)

Lemma check_application_health_cases (w : world) :
  check_application_health w =
  if negb (truthy (deployment_url w)) then (inr "No deployment URL set", w)
  else
    (inr match http (deployment_url w) (length (trace w)) with
         | Response code =>
             if (code =? 200)%Z then "✅ Application healthy"
             else "❌ Application issue: HTTP " +:+ pretty code
         | RequestFailed msg => "❌ Application error: " +:+ msg
         end,
     emit (EvHttpGet (deployment_url w)) w).
Proof.
  unfold check_application_health, try_except, bind, requests_get, ret.
  destruct (truthy (deployment_url w)); simpl; [|reflexivity].
  destruct (http _ _) as [code|msg]; [|reflexivity].
  destruct (code =? 200)%Z; reflexivity.
Qed.

(** C2. The health check answers ["No deployment URL set"] when no URL
    is recorded; with a URL recorded it answers that the application is
    healthy on status 200, names an issue and the status code on any
    other status, and names an error and the failure's description when
    the request raises. *)
Theorem check_application_health_classifies (w : world) :
  (deployment_url w = PNone ->
   check_application_health w = (inr "No deployment URL set", w)) /\
  (truthy (deployment_url w) = true ->
   forall code, http (deployment_url w) (length (trace w)) = Response code ->
     (code = 200%Z -> (check_application_health w).1 = inr "✅ Application healthy") /\
     (code <> 200%Z ->
      exists s, (check_application_health w).1 = inr s /\
        starts_with "❌ Application issue" s = true /\ contains (pretty code) s = true)) /\
  (truthy (deployment_url w) = true ->
   forall msg, http (deployment_url w) (length (trace w)) = RequestFailed msg ->
     exists s, (check_application_health w).1 = inr s /\
       starts_with "❌ Application error" s = true /\ contains msg s = true).
Proof.
  rewrite check_application_health_cases. repeat split.
  - intros ->. reflexivity.
  - intros ->. rewrite H, H0. reflexivity.
  - exists ("❌ Application issue: HTTP " +:+ pretty code).
    rewrite H, H0. simpl. apply Z.eqb_neq in H1. rewrite H1.
    split; [reflexivity|]. split; [reflexivity|].
    apply (contains_app_r (pretty code) "❌ Application issue: HTTP ").
  - intros Ht msg Hm. exists ("❌ Application error: " +:+ msg).
    rewrite Ht, Hm. simpl.
    split; [reflexivity|]. split; [reflexivity|].
    apply (contains_app_r msg "❌ Application error: ").
Qed.

(** C9. The health check leaves the three attributes of the bridge, the
    working directory and the file system (the log file with it) as they
    were, and appends no log record: all it can add to the trace is the
    request it sent.  A dispatch of [CHECK_HEALTH] is that call. *)
Theorem check_health_is_read_only (payload : pyval) (w : world) :
  let w' := (check_application_health w).2 in
  repo_path w' = repo_path w /\
  deployment_url w' = deployment_url w /\
  monitoring_active w' = monitoring_active w /\
  cwd w' = cwd w /\
  fs w' = fs w /\
  (trace w' = trace w \/ trace w' = trace w ++ [EvHttpGet (deployment_url w)]) /\
  log_count (events_since w w') = 0 /\
  (execute_ai_instruction (PStr "CHECK_HEALTH") payload w).2 = w'.
Proof.
  assert (Hexec : (execute_ai_instruction (PStr "CHECK_HEALTH") payload w).2
                  = (check_application_health w).2).
  { unfold execute_ai_instruction, try_except, dispatch, returning, bind. simpl.
    destruct (check_application_health w) as [[e|s] w']; reflexivity. }
  simpl. rewrite Hexec. rewrite check_application_health_cases.
  unfold events_since.
  destruct (negb (truthy (deployment_url w))); simpl.
  - rewrite drop_all. repeat split; auto.
  - rewrite drop_app_length. repeat split; auto.
Qed.

(** ** Running commands *)

Lemma run_command_completed (command : pyval) (w : world) (r : completed_process) :
  shell command (repo_path w) (length (trace w)) = inr r ->
  run_command command w =
  (let (x, w') := log_status ("COMMAND_RUN: " +:+ py_str command) (emit (EvShell command) w) in
   (match x with inl e => inl e | inr _ => inr (command_output r) end, w')).
Proof.
  intros Hr. unfold run_command, bind, subprocess_run, ret. rewrite Hr.
  destruct (log_status _ _) as [[e|[]] w']; reflexivity.
Qed.

Lemma run_command_raised (command : pyval) (w : world) (e : exn) :
  shell command (repo_path w) (length (trace w)) = inl e ->
  run_command command w = (inl e, w).
Proof.
  intros Hr. unfold run_command, bind, subprocess_run. rewrite Hr. reflexivity.
Qed.

End Properties.



(** ** Frames: what no computation of the bridge changes *)

Lemma extends_refl (w : world) : extends w w.
Proof. repeat split. exists []. symmetry. apply app_nil_r. Qed.

Lemma extends_trans (w1 w2 w3 : world) : extends w1 w2 -> extends w2 w3 -> extends w1 w3.
Proof.
  intros (Hr1 & Hc1 & evs1 & Ht1) (Hr2 & Hc2 & evs2 & Ht2).
  split; [congruence|]. split; [congruence|].
  exists (evs1 ++ evs2). rewrite Ht2, Ht1. symmetry. apply app_assoc.
Qed.

Lemma extends_emit (e : event) (w : world) : extends w (emit e w).
Proof. repeat split. exists [e]. reflexivity. Qed.

Lemma extends_set_fs (files : filesys) (w : world) : extends w (set_fs files w).
Proof. repeat split. exists []. symmetry. apply app_nil_r. Qed.

Lemma events_since_app (w w' : world) (evs : list event) :
  trace w' = trace w ++ evs -> events_since w w' = evs.
Proof. intros H. unfold events_since. rewrite H. apply drop_app_length. Qed.

Lemma steady_ret {A} (a : A) : steady (ret a).
Proof. intros w. apply extends_refl. Qed.

Lemma steady_raise {A} (e : exn) : steady (@raise A e).
Proof. intros w. apply extends_refl. Qed.

Lemma steady_lift {A} (r : exn + A) : steady (lift r).
Proof. intros w. apply extends_refl. Qed.

Lemma steady_bind {A B} (m : M A) (k : A -> M B) :
  steady m -> (forall a, steady (k a)) -> steady (bind m k).
Proof.
  intros Hm Hk w. unfold bind. specialize (Hm w).
  destruct (m w) as [[e|a] w1]; simpl in *; [exact Hm|].
  eapply extends_trans; [exact Hm | apply Hk].
Qed.

Lemma steady_try_except {A} (m : M A) (h : exn -> M A) :
  steady m -> (forall e, steady (h e)) -> steady (try_except m h).
Proof.
  intros Hm Hh w. unfold try_except. specialize (Hm w).
  destruct (m w) as [[e|a] w1]; simpl in *; [|exact Hm].
  eapply extends_trans; [exact Hm | apply Hh].
Qed.

Lemma steady_emit (e : event) : steady (effect (emit e)).
Proof. intros w. apply extends_emit. Qed.

Lemma steady_assign_deployment_url (u : pyval) : steady (assign_deployment_url u).
Proof. intros w. repeat split. exists []. symmetry. apply app_nil_r. Qed.

Lemma steady_set_monitoring_active (b : bool) : steady (effect (set_monitoring_active b)).
Proof. intros w. repeat split. exists []. symmetry. apply app_nil_r. Qed.

Lemma steady_if {A} (b : bool) (m1 m2 : M A) : steady m1 -> steady m2 -> steady (if b then m1 else m2).
Proof. destruct b; auto. Qed.

Section Frames.

Context {env : Environment}.

Lemma steady_log_status (status : string) : steady (log_status status).
Proof.
  intros w. unfold log_status.
  destruct (resolve_file _ _ _); simpl; [apply extends_refl|].
  eapply extends_trans; [apply extends_set_fs | apply extends_emit].
Qed.

Lemma steady_print (text : string) : steady (print text).
Proof. apply steady_emit. Qed.

Lemma steady_setup_bridge : steady setup_bridge.
Proof.
  unfold setup_bridge.
  repeat (apply steady_bind; [|intros _]); try apply steady_print; try apply steady_log_status.
  intros w. apply steady_print.
Qed.

Lemma steady_join_repo (filepath : pyval) : steady (join_repo filepath).
Proof. intros w. unfold join_repo. destruct filepath; apply extends_refl. Qed.

Lemma steady_makedirs (p : string) : steady (makedirs p).
Proof.
  intros w. unfold makedirs.
  destruct (os_makedirs _ _ _); simpl; [apply extends_refl | apply extends_set_fs].
Qed.

Lemma steady_write_file (p : string) (content : pyval) : steady (write_file p content).
Proof.
  intros w. unfold write_file.
  destruct (resolve_file _ _ _); simpl; [apply extends_refl|].
  destruct content; apply extends_set_fs.
Qed.

Lemma steady_subprocess_run (command : pyval) : steady (subprocess_run command).
Proof.
  intros w. unfold subprocess_run.
  destruct (shell _ _ _); simpl; [apply extends_refl | apply extends_emit].
Qed.

Lemma steady_requests_get : steady requests_get.
Proof.
  intros w. unfold requests_get.
  destruct (http _ _); apply extends_emit.
Qed.

Lemma steady_deployment_url_str : steady deployment_url_str.
Proof. intros w. apply extends_refl. Qed.

Lemma steady_strftime_now : steady strftime_now.
Proof. intros w. apply extends_refl. Qed.

Lemma steady_getitem (payload : pyval) (key : string) : steady (getitem payload key).
Proof. apply steady_lift. Qed.

Lemma steady_dict_items (files : pyval) : steady (dict_items files).
Proof. destruct files; first [apply steady_ret | apply steady_raise]. Qed.

Lemma steady_sleep (seconds : nat) : steady (sleep seconds).
Proof. apply steady_emit. Qed.

Ltac steady :=
  repeat first
    [ apply steady_ret | apply steady_raise | apply steady_log_status | apply steady_join_repo
    | apply steady_makedirs | apply steady_write_file | apply steady_subprocess_run
    | apply steady_requests_get | apply steady_deployment_url_str | apply steady_strftime_now
    | apply steady_getitem | apply steady_dict_items | apply steady_sleep
    | apply steady_assign_deployment_url | apply steady_set_monitoring_active
    | apply steady_emit | apply steady_if | apply steady_try_except
    | apply steady_bind | intro ].

Lemma steady_create_file (filepath content : pyval) : steady (create_file filepath content).
Proof. unfold create_file. steady. Qed.

Lemma steady_run_command (command : pyval) : steady (run_command command).
Proof. unfold run_command. steady. Qed.

Lemma steady_deploy_project (deploy_type : pyval) : steady (deploy_project deploy_type).
Proof.
  unfold deploy_project.
  apply steady_bind; [apply steady_log_status|intros _].
  repeat apply steady_if;
    repeat (apply steady_bind; [|intro]);
    first [apply steady_run_command | steady].
Qed.

Lemma steady_check_application_health : steady check_application_health.
Proof.
  intros w. rewrite check_application_health_cases.
  destruct (negb _); simpl; [apply extends_refl | apply extends_emit].
Qed.

Lemma steady_monitor_iteration : steady monitor_iteration.
Proof.
  intros w. unfold monitor_iteration.
  destruct (monitoring_active w); [|apply extends_refl].
  revert w. apply steady_bind; [apply steady_check_application_health|intros health].
  steady.
Qed.

Lemma steady_start_monitoring (url : pyval) : steady (start_monitoring url).
Proof. unfold start_monitoring. steady. Qed.

Lemma steady_auto_fix_issues (issue_type : pyval) : steady (auto_fix_issues issue_type).
Proof.
  unfold auto_fix_issues.
  apply steady_bind; [apply steady_log_status|intros _].
  repeat apply steady_if;
    repeat (apply steady_bind; [|intro]);
    first [apply steady_run_command | apply steady_deploy_project | apply steady_create_file
          | steady].
Qed.

Lemma steady_create_files (items : list (string * pyval)) : steady (create_files items).
Proof.
  induction items as [|[file_path content] rest IH]; simpl; [apply steady_ret|].
  apply steady_bind; [apply steady_create_file | intros _; exact IH].
Qed.

Lemma steady_add_feature (feature_name files : pyval) : steady (add_feature feature_name files).
Proof.
  unfold add_feature.
  repeat (apply steady_bind; [|intro]);
    first [apply steady_create_files | apply steady_deploy_project | steady].
Qed.

Lemma steady_run_tests : steady run_tests.
Proof. unfold run_tests. apply steady_bind; [apply steady_run_command | steady]. Qed.

Lemma steady_backup_project : steady backup_project.
Proof.
  unfold backup_project.
  repeat (apply steady_bind; [|intro]); first [apply steady_run_command | steady].
Qed.

Lemma steady_git_commit (message : pyval) : steady (git_commit message).
Proof.
  unfold git_commit.
  repeat (apply steady_bind; [|intro]); first [apply steady_run_command | steady].
Qed.

Lemma steady_returning (m : M string) : steady m -> steady (returning m).
Proof. intros Hm. unfold returning. apply steady_bind; [exact Hm | steady]. Qed.

Lemma steady_dispatch (instruction_type payload : pyval) :
  steady (dispatch instruction_type payload).
Proof.
  unfold dispatch.
  repeat lazymatch goal with
         | |- steady (if _ then _ else _) => apply steady_if
         | |- steady (bind (getitem _ _) _) => apply steady_bind; [apply steady_getitem | intro]
         | |- steady (returning _) => apply steady_returning
         | |- steady (create_file _ _) => apply steady_create_file
         | |- steady (run_command _) => apply steady_run_command
         | |- steady (deploy_project _) => apply steady_deploy_project
         | |- steady (start_monitoring _) => apply steady_start_monitoring
         | |- steady check_application_health => apply steady_check_application_health
         | |- steady (auto_fix_issues _) => apply steady_auto_fix_issues
         | |- steady (add_feature _ _) => apply steady_add_feature
         | |- steady (git_commit _) => apply steady_git_commit
         | |- steady run_tests => apply steady_run_tests
         | |- steady backup_project => apply steady_backup_project
         | |- steady (ret _) => apply steady_ret
         end.
Qed.

Lemma steady_execute_ai_instruction (instruction_type payload : pyval) :
  steady (execute_ai_instruction instruction_type payload).
Proof.
  unfold execute_ai_instruction.
  apply steady_try_except; [apply steady_dispatch | intro; apply steady_ret].
Qed.

Lemma step_extends (w w' : world) : step w w' -> extends w w'.
Proof.
  intros []; [apply steady_execute_ai_instruction | apply steady_monitor_iteration |].
  repeat split. exists []. symmetry. apply app_nil_r.
Qed.

Lemma init_repo_path (dir : list string) (files : filesys) :
  repo_path (init dir files).2 = getcwd dir /\ cwd (init dir files).2 = dir.
Proof.
  unfold init.
  destruct (steady_setup_bridge (World (getcwd dir) PNone false dir files [])) as (Hr & Hc & _).
  split; assumption.
Qed.

(** C8. The repository path is what [os.getcwd()] returned when the
    bridge was constructed, and it is the same after any sequence of
    dispatched instructions, turns of the monitoring loop and clearings
    of the flag. *)
Theorem repo_path_is_immutable (w0 w : world) :
  reachable w0 w ->
  repo_path w = repo_path w0 /\
  (forall dir files, w0 = (init dir files).2 -> repo_path w = getcwd dir).
Proof.
  intros Hreach.
  assert (Hext : extends w0 w).
  { unfold reachable in Hreach.
    induction Hreach as [w0 | w0 w1 w2 Hstep _ IH]; [apply extends_refl|].
    eapply extends_trans; [apply step_extends; exact Hstep | exact IH]. }
  destruct Hext as (Hr & _ & _).
  split; [exact Hr|].
  intros dir files ->. destruct (init_repo_path dir files) as (Hi & _). congruence.
Qed.

End Frames.

(** ** Counting log records *)

Lemma log_count_app (evs1 evs2 : list event) :
  log_count (evs1 ++ evs2) = log_count evs1 + log_count evs2.
Proof. induction evs1 as [|e evs1 IH]; simpl; [reflexivity|]. rewrite IH. lia. Qed.

Lemma logging_ret {A} (a : A) : logging 0 (ret a).
Proof.
  intros w a' w' H. injection H as _ <-. exists []. split; [|reflexivity].
  symmetry. apply app_nil_r.
Qed.

Lemma logging_raise {A} (n : nat) (e : exn) : logging n (@raise A e).
Proof. intros w a w' H. discriminate H. Qed.

Lemma logging_lift {A} (r : exn + A) : logging 0 (lift r).
Proof.
  intros w a w' H. injection H as _ <-. exists []. split; [|reflexivity].
  symmetry. apply app_nil_r.
Qed.

Lemma logging_bind {A B} (n n' total : nat) (m : M A) (k : A -> M B) :
  logging n m -> (forall a, logging n' (k a)) -> total = n + n' -> logging total (bind m k).
Proof.
  intros Hm Hk -> w b w2 H. unfold bind in H.
  destruct (m w) as [[e|a] w1] eqn:Hmw; [discriminate|].
  destruct (Hm w a w1 Hmw) as (evs1 & Ht1 & Hn1).
  destruct (Hk a w1 b w2 H) as (evs2 & Ht2 & Hn2).
  exists (evs1 ++ evs2). split.
  - rewrite Ht2, Ht1. symmetry. apply app_assoc.
  - rewrite log_count_app. congruence.
Qed.

Lemma logging_emit (e : event) : is_log e = false -> logging 0 (effect (emit e)).
Proof.
  intros He w a w' H. injection H as _ <-. exists [e]. split; [reflexivity|].
  simpl. rewrite He. reflexivity.
Qed.

Lemma logging_unseen {A} (m : M A) :
  (forall w a w', m w = (inr a, w') -> trace w' = trace w) -> logging 0 m.
Proof.
  intros Hm w a w' H. exists []. split; [|reflexivity].
  rewrite (Hm w a w' H). symmetry. apply app_nil_r.
Qed.

Lemma logging_assign_deployment_url (u : pyval) : logging 0 (assign_deployment_url u).
Proof. apply logging_unseen. intros w a w' H. injection H as _ <-. reflexivity. Qed.

Lemma logging_set_monitoring_active (b : bool) : logging 0 (effect (set_monitoring_active b)).
Proof. apply logging_unseen. intros w a w' H. injection H as _ <-. reflexivity. Qed.

Lemma nonempty_ret (s : string) : s <> "" -> nonempty (ret s).
Proof. intros Hs w s' w' H. injection H as <- _. exact Hs. Qed.

Lemma nonempty_bind {A} (m : M A) (k : A -> M string) :
  (forall a, nonempty (k a)) -> nonempty (bind m k).
Proof.
  intros Hk w s w2 H. unfold bind in H.
  destruct (m w) as [[e|a] w1]; [discriminate|].
  exact (Hk a w1 s w2 H).
Qed.

Lemma nonempty_if (b : bool) (m1 m2 : M string) :
  nonempty m1 -> nonempty m2 -> nonempty (if b then m1 else m2).
Proof. destruct b; auto. Qed.

Lemma command_output_nonempty (r : completed_process) : command_output r <> "".
Proof.
  unfold command_output.
  destruct (negb (stdout r =? "") || negb (stderr r =? "")); simpl; discriminate.
Qed.

Section Records.

Context {env : Environment}.

Lemma logging_log_status (status : string) : logging 1 (log_status status).
Proof.
  intros w a w' H. unfold log_status in H.
  destruct (resolve_file _ _ _); [discriminate|].
  injection H as _ <-. eexists. split; reflexivity.
Qed.

Lemma logging_join_repo (filepath : pyval) : logging 0 (join_repo filepath).
Proof.
  apply logging_unseen. intros w a w' H. unfold join_repo in H.
  destruct filepath; try discriminate. injection H as _ <-. reflexivity.
Qed.

Lemma logging_makedirs (p : string) : logging 0 (makedirs p).
Proof.
  apply logging_unseen. intros w a w' H. unfold makedirs in H.
  destruct (os_makedirs _ _ _); [discriminate|]. injection H as _ <-. reflexivity.
Qed.

Lemma logging_write_file (p : string) (content : pyval) : logging 0 (write_file p content).
Proof.
  apply logging_unseen. intros w a w' H. unfold write_file in H.
  destruct (resolve_file _ _ _); [discriminate|].
  destruct content; try discriminate. injection H as _ <-. reflexivity.
Qed.

Lemma logging_subprocess_run (command : pyval) : logging 0 (subprocess_run command).
Proof.
  intros w a w' H. unfold subprocess_run in H.
  destruct (shell _ _ _); [discriminate|]. injection H as _ <-.
  exists [EvShell command]. split; reflexivity.
Qed.

Lemma logging_deployment_url_str : logging 0 deployment_url_str.
Proof. apply logging_unseen. intros w a w' H. injection H as _ <-. reflexivity. Qed.

Lemma logging_strftime_now : logging 0 strftime_now.
Proof. apply logging_unseen. intros w a w' H. injection H as _ <-. reflexivity. Qed.

Lemma logging_dict_items (files : pyval) : logging 0 (dict_items files).
Proof. destruct files; first [apply logging_ret | apply logging_raise]. Qed.

Lemma logging_check_application_health : logging 0 check_application_health.
Proof.
  intros w a w' H. rewrite check_application_health_cases in H.
  destruct (negb _); injection H as _ <-.
  - exists []. split; [symmetry; apply app_nil_r | reflexivity].
  - eexists. split; reflexivity.
Qed.

Ltac logging :=
  repeat first
    [ apply logging_ret | apply logging_log_status | apply logging_join_repo
    | apply logging_makedirs | apply logging_write_file | apply logging_subprocess_run
    | apply logging_deployment_url_str | apply logging_strftime_now | apply logging_dict_items
    | apply logging_assign_deployment_url | apply logging_set_monitoring_active
    | apply logging_emit; reflexivity | apply logging_lift
    | apply logging_check_application_health
    | eapply logging_bind; [ | intro | ] ];
  try reflexivity.












End Records.

(** ** What the handlers return *)


Section Results.

Context {env : Environment}.

Ltac nonempty :=
  repeat first
    [ apply nonempty_bind; intro | apply nonempty_if
    | apply nonempty_ret; first [apply command_output_nonempty | simpl; discriminate] ].
















End Results.

(** ** Deployment *)

Section Deployment.

Context {env : Environment}.

Lemma log_status_succeeds (status : string) (w : world) :
  log_writable w = true ->
  exists record files,
    log_status status w =
    (inr tt, World (repo_path w) (deployment_url w) (monitoring_active w) (cwd w) files
               (trace w ++ [EvLog record])) /\
    is_file (files !! (cwd w ++ [log_file])) = true.
Proof.
  intros Hw. destruct (log_status_writable status w Hw) as [old ->].
  eexists _, _. split; [reflexivity|].
  simpl. rewrite lookup_insert_eq. reflexivity.
Qed.

Lemma log_file_writable (u : pyval) (b : bool) (dir : list string) (path : string)
    (files : filesys) (evs : list event) :
  is_file (files !! (dir ++ [log_file])) = true ->
  log_writable (World path u b dir files evs) = true.
Proof.
  intros Hf. rewrite log_writable_spec. simpl.
  destruct (files !! (dir ++ [log_file])) as [[|c]|]; try discriminate. reflexivity.
Qed.

Lemma run_command_succeeds (command : pyval) (w : world) (r : completed_process) :
  shell command (repo_path w) (length (trace w)) = inr r ->
  log_writable w = true ->
  exists record files,
    run_command command w =
    (inr (command_output r),
     World (repo_path w) (deployment_url w) (monitoring_active w) (cwd w) files
       (trace w ++ [EvShell command; EvLog record])) /\
    is_file (files !! (cwd w ++ [log_file])) = true.
Proof.
  intros Hr Hw. rewrite (run_command_completed command w r Hr).
  assert (Hw' : log_writable (emit (EvShell command) w) = true) by exact Hw.
  destruct (log_status_succeeds ("COMMAND_RUN: " +:+ py_str command) _ Hw')
    as (record & files & -> & Hf).
  exists record, files. simpl. rewrite <- app_assoc. split; [reflexivity | exact Hf].
Qed.

Lemma commands_run_app (evs1 evs2 : list event) :
  commands_run (evs1 ++ evs2) = commands_run evs1 ++ commands_run evs2.
Proof.
  induction evs1 as [|e evs1 IH]; simpl; [reflexivity|].
  destruct e; simpl; rewrite IH; reflexivity.
Qed.


End Deployment.

(** ** Paths as strings and as components *)

Lemma append_cons (x : ascii) (a b : string) : String x a +:+ b = String x (a +:+ b).
Proof. reflexivity. Qed.

Lemma append_assoc (a b c : string) : (a +:+ b) +:+ c = a +:+ b +:+ c.
Proof.
  induction a as [|x a IH]; [reflexivity|].
  rewrite !append_cons, IH. reflexivity.
Qed.

Lemma split_slash_cons (s : string) : exists h t, split_slash s = h :: t.
Proof.
  induction s as [|c s (h & t & IH)]; simpl; [eauto|].
  destruct (is_slash c); [eauto|]. rewrite IH. eauto.
Qed.

Lemma split_slash_app (a b : string) :
  split_slash (a +:+ "/" +:+ b) = split_slash a ++ split_slash b.
Proof.
  induction a as [|c a IH]; [reflexivity|].
  rewrite append_cons. simpl.
  destruct (is_slash c); rewrite IH; [reflexivity|].
  destruct (split_slash_cons a) as (h & t & ->). reflexivity.
Qed.

Lemma ends_with_slash_inv (a : string) :
  ends_with_slash a = true -> exists a', a = a' +:+ "/".
Proof.
  induction a as [|c a IH]; simpl; [discriminate|].
  destruct a as [|d a].
  - unfold is_slash. intros H. apply Ascii.eqb_eq in H as ->. exists "". reflexivity.
  - intros H. destruct (IH H) as [a' ->]. exists (String c a'). reflexivity.
Qed.



Lemma starts_with_slash_app (a b : string) :
  starts_with_slash a = true -> starts_with_slash (a +:+ b) = true.
Proof. destruct a; [discriminate | auto]. Qed.

Lemma drop_empty_app (cs1 cs2 : list string) :
  drop_empty (cs1 ++ cs2) = drop_empty cs1 ++ drop_empty cs2.
Proof.
  induction cs1 as [|c cs1 IH]; simpl; [reflexivity|].
  destruct (c =? ""); rewrite IH; reflexivity.
Qed.

Lemma has_slash_split (s : string) : has_slash s = false -> split_slash s = [s].
Proof.
  induction s as [|c s IH]; simpl; [reflexivity|].
  destruct (is_slash c); simpl; [discriminate|]. intros H. rewrite (IH H). reflexivity.
Qed.

Lemma split_single (s h : string) : split_slash s = [h] -> has_slash s = false.
Proof.
  revert h. induction s as [|d s IH]; intros h; simpl; [reflexivity|].
  destruct (is_slash d); simpl.
  - destruct (split_slash_cons s) as (h0 & t0 & ->). discriminate.
  - destruct (split_slash_cons s) as (h0 & t0 & Hs). rewrite Hs.
    intros [= _ ->]. exact (IH h0 Hs).
Qed.

Lemma head_part_no_slash (s : string) : has_slash s = false -> head_part s = "".
Proof. destruct s as [|d s]; [reflexivity|]. simpl. intros ->. reflexivity. Qed.

Lemma split_head_part (s : string) :
  has_slash s = true -> split_slash (head_part s) = removelast (split_slash s) ++ [""].
Proof.
  induction s as [|c s IH]; simpl; [discriminate|].
  destruct (is_slash c) eqn:Hc; simpl.
  - intros _. rewrite Hc. destruct (has_slash s) eqn:Hs.
    + rewrite (IH eq_refl). destruct (split_slash_cons s) as (h & t & Hst).
      rewrite Hst. reflexivity.
    + rewrite (has_slash_split s Hs), (head_part_no_slash s Hs). reflexivity.
  - intros Hs. rewrite Hs. simpl. rewrite Hc. rewrite (IH Hs).
    destruct (split_slash_cons s) as (h & t & Hst). rewrite Hst.
    destruct t as [|h' t]; [|reflexivity].
    rewrite (split_single s h Hst) in Hs. discriminate.
Qed.

Lemma rstrip_slash_empty (h : string) : rstrip_slash h = "" -> all_slashes h = true.
Proof.
  induction h as [|c h IH]; simpl; [reflexivity|].
  destruct (is_slash c); simpl; [|discriminate].
  destruct (rstrip_slash h); [intros _; apply IH; reflexivity | discriminate].
Qed.

Lemma all_slashes_split (h : string) : all_slashes h = true -> drop_empty (split_slash h) = [].
Proof.
  induction h as [|c h IH]; simpl; [reflexivity|].
  destruct (is_slash c); simpl; [exact IH | discriminate].
Qed.

Lemma split_rstrip (h : string) :
  exists hd t1 t2,
    split_slash (rstrip_slash h) = hd :: t1 /\ split_slash h = hd :: t2 /\
    drop_empty t1 = drop_empty t2.
Proof.
  induction h as [|c h (hd & t1 & t2 & H1 & H2 & Ht)]; simpl.
  - exists "", [], []. auto.
  - destruct (is_slash c) eqn:Hc; simpl.
    + destruct (rstrip_slash h) as [|d r] eqn:Hr; simpl.
      * exists "", [], (split_slash h). repeat split.
        symmetry. apply all_slashes_split, rstrip_slash_empty, Hr.
      * rewrite Hc. exists "", (split_slash (String d r)), (split_slash h).
        repeat split. rewrite H1, H2. simpl. rewrite Ht. reflexivity.
    + rewrite Hc, H1, H2. exists (String c hd), t1, t2. auto.
Qed.

Lemma drop_empty_rstrip (h : string) :
  drop_empty (split_slash (rstrip_slash h)) = drop_empty (split_slash h).
Proof.
  destruct (split_rstrip h) as (hd & t1 & t2 & -> & -> & Ht).
  simpl. rewrite Ht. reflexivity.
Qed.

Lemma drop_empty_dirname (s : string) :
  drop_empty (split_slash (dirname s)) = drop_empty (removelast (split_slash s)).
Proof.
  unfold dirname.
  assert (Hhead : drop_empty (split_slash (head_part s)) = drop_empty (removelast (split_slash s))).
  { destruct (has_slash s) eqn:Hs.
    - rewrite (split_head_part s Hs), drop_empty_app. simpl. apply app_nil_r.
    - rewrite (head_part_no_slash s Hs), (has_slash_split s Hs). reflexivity. }
  destruct (negb (head_part s =? "") && negb (all_slashes (head_part s)));
    [rewrite drop_empty_rstrip|]; exact Hhead.
Qed.

Lemma strip_absolute (h : string) :
  starts_with_slash h = true ->
  let d := if negb (h =? "") && negb (all_slashes h) then rstrip_slash h else h in
  starts_with_slash d = true /\ (d =? "") = false.
Proof.
  destruct h as [|c h]; [discriminate|]. intros Hs. simpl in Hs.
  destruct (all_slashes (String c h)) eqn:Ha.
  - rewrite andb_false_r. simpl. auto.
  - change (String c h =? "") with false. simpl negb. simpl andb. cbv iota zeta.
    simpl in Ha. rewrite Hs in Ha. simpl in Ha.
    simpl. rewrite Hs. simpl.
    destruct (rstrip_slash h) as [|d r] eqn:Hr; simpl.
    + rewrite (rstrip_slash_empty _ Hr) in Ha. discriminate.
    + auto.
Qed.

Lemma dirname_absolute (s : string) :
  starts_with_slash s = true ->
  starts_with_slash (dirname s) = true /\ (dirname s =? "") = false.
Proof.
  intros Hs. apply strip_absolute.
  destruct s as [|c s]; [discriminate|]. simpl in *. rewrite Hs. exact Hs.
Qed.

(** ** Walking and making directories *)

Lemma plain_spec (c : string) :
  plain c = true -> stays c = false /\ (c =? "..") = false /\ (c =? "") = false.
Proof.
  unfold plain, stays. destruct (c =? ""), (c =? "."), (c =? ".."); simpl; intros H;
    try discriminate; auto.
Qed.

Lemma walk_drop_empty (files : filesys) (cs cur : list string) :
  walk files cur (drop_empty cs) = walk files cur cs.
Proof.
  revert cur. induction cs as [|c cs IH]; intros cur; simpl; [reflexivity|].
  unfold stays. destruct (c =? "") eqn:Hc; simpl; [apply IH|].
  unfold stays. rewrite Hc. simpl.
  destruct (c =? "."); [apply IH|]. destruct (c =? ".."); [apply IH|].
  destruct (node_at files (cur ++ [c])) as [[|x]|]; auto.
Qed.

Lemma mkdirs_drop_empty (cs : list string) (files : filesys) (cur : list string)
    (made : filesys) :
  mkdirs files cur (drop_empty cs) = inr made <-> mkdirs files cur cs = inr made.
Proof.
  revert files cur. induction cs as [|c cs IH]; intros files cur; simpl; [reflexivity|].
  unfold stays. destruct (c =? "") eqn:Hc; simpl; [apply IH|].
  unfold stays. rewrite Hc. simpl.
  destruct (c =? "."); [apply IH|]. destruct (c =? ".."); [apply IH|].
  destruct (node_at files (cur ++ [c])) as [[|x]|]; [apply IH | | apply IH].
  split; discriminate.
Qed.

Lemma walk_app (files : filesys) (cs1 cs2 cur : list string) :
  walk files cur (cs1 ++ cs2) =
  match walk files cur cs1 with
  | inr d => walk files d cs2
  | inl e => inl e
  end.
Proof.
  revert cur. induction cs1 as [|c cs1 IH]; intros cur; simpl; [reflexivity|].
  destruct (stays c); [apply IH|]. destruct (c =? ".."); [apply IH|].
  destruct (node_at files (cur ++ [c])) as [[|x]|]; auto.
Qed.

Lemma mkdirs_app_walk (files : filesys) (cs1 cs2 cur d : list string) :
  walk files cur cs1 = inr d -> mkdirs files cur (cs1 ++ cs2) = mkdirs files d cs2.
Proof.
  revert cur. induction cs1 as [|c cs1 IH]; intros cur; simpl.
  - intros [= ->]. reflexivity.
  - destruct (stays c); [apply IH|]. destruct (c =? ".."); [apply IH|].
    destruct (node_at files (cur ++ [c])) as [[|x]|]; [apply IH | discriminate | discriminate].
Qed.


Lemma walk_dirs_preserved (files files' : filesys) (cs cur d : list string) :
  (forall q, is_dir (files !! q) = true -> is_dir (files' !! q) = true) ->
  walk files cur cs = inr d -> walk files' cur cs = inr d.
Proof.
  intros Hdirs. revert cur. induction cs as [|c cs IH]; intros cur; simpl; [auto|].
  destruct (stays c); [apply IH|]. destruct (c =? ".."); [apply IH|].
  rewrite !node_at_snoc.
  destruct (files !! (cur ++ [c])) as [[|x]|] eqn:Hn; try discriminate.
  assert (Hd : is_dir (files' !! (cur ++ [c])) = true) by (apply Hdirs; rewrite Hn; reflexivity).
  destruct (files' !! (cur ++ [c])) as [[|x]|]; try discriminate. apply IH.
Qed.

Lemma way_free_cons (files : filesys) (cur : list string) (c c' : string) (cs : list string) :
  way_free files cur (c :: c' :: cs) =
  negb (is_file (files !! (cur ++ [c]))) && way_free files (cur ++ [c]) (c' :: cs).
Proof. reflexivity. Qed.

Lemma snoc_not_nil {A} (l : list A) (x : A) : l ++ [x] <> [].
Proof. destruct l; discriminate. Qed.

Lemma way_free_step (files : filesys) (cur : list string) (c : string) (cs : list string) :
  cs <> [] ->
  way_free files cur (c :: cs) =
  negb (is_file (files !! (cur ++ [c]))) && way_free files (cur ++ [c]) cs.
Proof. destruct cs; [congruence | reflexivity]. Qed.

Lemma not_own_extension {A} (l pre : list A) : pre <> [] -> l <> l ++ pre.
Proof.
  intros Hpre H. apply Hpre.
  apply (app_inv_head l). rewrite app_nil_r. symmetry. exact H.
Qed.

Lemma way_free_insert (files : filesys) (q : list string) (n : node) (cs cur : list string) :
  (forall pre, pre <> [] -> q <> cur ++ pre) ->
  way_free (<[q := n]> files) cur cs = way_free files cur cs.
Proof.
  revert cur. induction cs as [|c cs IH]; intros cur Hq; [reflexivity|].
  assert (Hc : <[q := n]> files !! (cur ++ [c]) = files !! (cur ++ [c])).
  { apply lookup_insert_ne. apply Hq. discriminate. }
  destruct cs as [|c' cs].
  - simpl. rewrite Hc. reflexivity.
  - rewrite !way_free_cons, Hc. f_equal. apply IH.
    intros pre Hpre. rewrite <- app_assoc. apply Hq. discriminate.
Qed.

(** Making the directories of a free way: they all exist afterwards,
    nothing that existed has changed, and the file name is still free. *)
Lemma mkdirs_plain (ds : list string) (f : string) (files : filesys) (cur : list string) :
  forallb plain ds = true ->
  way_free files cur (ds ++ [f]) = true ->
  exists made,
    mkdirs files cur ds = inr made /\
    walk made cur ds = inr (cur ++ ds) /\
    is_dir (made !! (cur ++ ds ++ [f])) = false /\
    (forall q n, files !! q = Some n -> made !! q = Some n) /\
    (forall q, made !! q = files !! q \/ made !! q = Some Dir).
Proof.
  revert files cur. induction ds as [|c ds IH]; intros files cur Hplain Hfree.
  - exists files. simpl in *. rewrite app_nil_r.
    repeat split; auto. destruct (is_dir _); [discriminate | reflexivity].
  - simpl in Hplain. apply andb_true_iff in Hplain as [Hc Hds].
    destruct (plain_spec c Hc) as (Hstay & Hup & _).
    change ((c :: ds) ++ [f]) with (c :: (ds ++ [f])) in Hfree.
    rewrite (way_free_step files cur c (ds ++ [f]) (snoc_not_nil ds f)) in Hfree.
    apply andb_true_iff in Hfree as [Hnofile Hfree].
    simpl. rewrite Hstay, Hup, node_at_snoc.
    destruct (files !! (cur ++ [c])) as [[|x]|] eqn:Hn; [| discriminate |].
    + destruct (IH files (cur ++ [c]) Hds Hfree) as (made & Hm & Hw & Hd & Hmono & Hnew).
      exists made. rewrite node_at_snoc, (Hmono _ _ Hn), <- !app_assoc in *.
      repeat split; auto.
    + assert (Hfree' : way_free (<[cur ++ [c] := Dir]> files) (cur ++ [c]) (ds ++ [f]) = true).
      { rewrite way_free_insert; [exact Hfree|]. intros pre Hpre. apply not_own_extension, Hpre. }
      destruct (IH _ (cur ++ [c]) Hds Hfree') as (made & Hm & Hw & Hd & Hmono & Hnew).
      exists made.
      assert (Hdir : made !! (cur ++ [c]) = Some Dir) by (apply Hmono, lookup_insert_eq).
      rewrite node_at_snoc, Hdir, <- !app_assoc in *.
      repeat split; auto.
      * intros q n Hq. apply Hmono. rewrite lookup_insert_ne; [exact Hq|].
        intros <-. congruence.
      * intros q. destruct (Hnew q) as [Hq|Hq]; [|auto].
        destruct (decide (cur ++ [c] = q)) as [<-|Hne]; [auto|].
        rewrite lookup_insert_ne in Hq by exact Hne. auto.
Qed.

Lemma way_free_of_walk (ds : list string) (f : string) (files : filesys) (cur : list string) :
  forallb plain ds = true ->
  walk files cur ds = inr (cur ++ ds) ->
  is_dir (files !! (cur ++ ds ++ [f])) = false ->
  way_free files cur (ds ++ [f]) = true /\ parents_exist files cur (ds ++ [f]) = true.
Proof.
  revert cur. induction ds as [|c ds IH]; intros cur Hplain Hwalk Hfile.
  - simpl in *. rewrite Hfile. auto.
  - simpl in Hplain. apply andb_true_iff in Hplain as [Hc Hds].
    destruct (plain_spec c Hc) as (Hstay & Hup & _).
    simpl in Hwalk. rewrite Hstay, Hup, node_at_snoc in Hwalk.
    destruct (files !! (cur ++ [c])) as [[|x]|] eqn:Hn; try discriminate.
    assert (Hwalk' : walk files (cur ++ [c]) ds = inr ((cur ++ [c]) ++ ds)).
    { rewrite Hwalk. f_equal. rewrite <- app_assoc. reflexivity. }
    assert (Hfile' : is_dir (files !! ((cur ++ [c]) ++ ds ++ [f])) = false).
    { rewrite <- app_assoc. exact Hfile. }
    destruct (IH (cur ++ [c]) Hds Hwalk' Hfile') as [Hfree Hparents].
    change ((c :: ds) ++ [f]) with (c :: (ds ++ [f])).
    rewrite (way_free_step files cur c (ds ++ [f]) (snoc_not_nil ds f)).
    split; [rewrite Hn, Hfree; reflexivity|].
    destruct (ds ++ [f]) as [|c' cs] eqn:Hcs; [reflexivity|].
    simpl. rewrite Hn. exact Hparents.
Qed.

(** ** Creating files *)

Lemma join_split (repo p : string) :
  starts_with_slash repo = true ->
  starts_with_slash p = false ->
  starts_with_slash (path_join repo p) = true /\
  exists cs, split_slash (path_join repo p) = cs ++ split_slash p /\
    forall files : filesys, walk files [] cs = walk files [] (split_slash repo).
Proof.
  intros Hrepo Hp. unfold path_join. rewrite Hp.
  assert (Hne : (repo =? "") = false) by (destruct repo; [discriminate | reflexivity]).
  rewrite Hne. simpl.
  destruct (ends_with_slash repo) eqn:Hend.
  - split; [apply starts_with_slash_app, Hrepo|].
    destruct (ends_with_slash_inv repo Hend) as [a ->].
    exists (split_slash a). rewrite append_assoc, split_slash_app. split; [reflexivity|].
    intros files. change (a +:+ "/") with (a +:+ "/" +:+ "").
    rewrite split_slash_app, walk_app. simpl.
    destruct (walk files [] (split_slash a)); reflexivity.
  - split; [apply starts_with_slash_app, Hrepo|].
    exists (split_slash repo). rewrite split_slash_app. auto.
Qed.

Lemma dirs_insert_file (files : filesys) (k q : list string) (c : string) :
  is_dir (files !! k) = false ->
  is_dir (files !! q) = true ->
  is_dir (<[k := File c]> files !! q) = true.
Proof.
  intros Hk Hq. rewrite lookup_insert_ne; [exact Hq|]. intros ->. congruence.
Qed.

Lemma repo_is_cwd_spec (w : world) :
  repo_is_cwd w = true ->
  starts_with_slash (repo_path w) = true /\
  walk (fs w) [] (split_slash (repo_path w)) = inr (cwd w).
Proof.
  unfold repo_is_cwd. intros H. apply andb_true_iff in H as [Hs Hw].
  split; [exact Hs|].
  destruct (walk _ _ _) as [e|d]; [discriminate|].
  apply bool_decide_eq_true in Hw. congruence.
Qed.


Lemma absolute_not_empty (s : string) : starts_with_slash s = true -> (s =? "") = false.
Proof. destruct s; [discriminate | reflexivity]. Qed.

Section Creation.

Context {env : Environment}.

(** What [create_file] does on a free way: the world it leaves. *)
Lemma create_file_succeeds (p content : string) (ds : list string) (f : string) (w : world) :
  repo_is_cwd w = true ->
  log_exists w = true ->
  split_slash p = ds ++ [f] ->
  forallb plain ds = true ->
  plain f = true ->
  starts_with_slash p = false ->
  way_free (fs w) (cwd w) (ds ++ [f]) = true ->
  exists made record old,
    create_file (PStr p) (PStr content) w =
      (inr ("✅ Created: " +:+ p),
       World (repo_path w) (deployment_url w) (monitoring_active w) (cwd w)
         (<[cwd w ++ [log_file] := File (old +:+ record)]>
            (<[cwd w ++ ds ++ [f] := File content]> made))
         (trace w ++ [EvLog record])) /\
    mkdirs (fs w) (cwd w) ds = inr made /\
    walk made (cwd w) ds = inr (cwd w ++ ds) /\
    is_dir (made !! (cwd w ++ ds ++ [f])) = false /\
    (forall q n, fs w !! q = Some n -> made !! q = Some n) /\
    (forall q, made !! q = fs w !! q \/ made !! q = Some Dir).
Proof.
  intros Hrepo Hlog Hsplit Hds Hf Hrel Hfree.
  destruct (repo_is_cwd_spec w Hrepo) as [Habs Hwalk].
  destruct (join_split (repo_path w) p Habs Hrel) as (Hfull & cs & Hcs & Hcsw).
  destruct (mkdirs_plain ds f (fs w) (cwd w) Hds Hfree) as (made & Hmk & Hwm & Hd & Hmono & Hnew).
  exists made.
  set (full := path_join (repo_path w) p) in *.
  assert (Hdirs : forall q, is_dir (fs w !! q) = true -> is_dir (made !! q) = true).
  { intros q Hq. destruct (fs w !! q) as [[|x]|] eqn:E; try discriminate.
    rewrite (Hmono _ _ E). reflexivity. }
  assert (Hcwd : walk made [] cs = inr (cwd w)).
  { apply (walk_dirs_preserved (fs w) made cs [] (cwd w) Hdirs). rewrite Hcsw. exact Hwalk. }
  assert (Hmakedirs : makedirs (dirname full) w = (inr tt, set_fs made w)).
  { unfold makedirs, os_makedirs. destruct (dirname_absolute full Hfull) as [Hda Hdne].
    rewrite Hdne. unfold start_dir. rewrite Hda.
    assert (Hm : mkdirs (fs w) [] (split_slash (dirname full)) = inr made).
    { apply mkdirs_drop_empty. rewrite drop_empty_dirname. apply mkdirs_drop_empty.
      rewrite Hcs, Hsplit, app_assoc, removelast_last.
      rewrite (mkdirs_app_walk (fs w) cs ds [] (cwd w)); [exact Hmk|].
      rewrite Hcsw. exact Hwalk. }
    rewrite Hm. reflexivity. }
  assert (Hres : resolve_file made (cwd w) full = inr (cwd w ++ ds ++ [f])).
  { unfold resolve_file. rewrite (absolute_not_empty full Hfull). unfold start_dir.
    rewrite Hfull. cbv zeta.
    rewrite Hcs, Hsplit, app_assoc, removelast_last, last_last, walk_app, Hcwd, Hwm.
    destruct (plain_spec f Hf) as (Hs & Hu & _). rewrite Hs, Hu. simpl orb. cbv iota.
    rewrite node_at_snoc, <- app_assoc.
    destruct (made !! (cwd w ++ ds ++ [f])) as [[|x]|]; try discriminate; reflexivity. }
  pose (w2 := set_fs (<[cwd w ++ ds ++ [f] := File content]> made) (set_fs made w)).
  assert (Hw2 : log_writable w2 = true).
  { rewrite log_writable_spec. unfold w2. cbn [fs cwd set_fs].
    unfold log_exists in Hlog.
    destruct (fs w !! (cwd w ++ [log_file])) as [[|l]|] eqn:El; try discriminate.
    rewrite lookup_insert. case_decide; [reflexivity|].
    rewrite (Hmono _ _ El). reflexivity. }
  destruct (log_status_writable ("FILE_CREATED: " +:+ p) w2 Hw2) as [old Hlogged].
  exists (clock (length (trace w)) +:+ ": " +:+ ("FILE_CREATED: " +:+ p) +:+ nl), old.
  split; [|auto 6].
  unfold create_file, bind, join_repo. fold full. rewrite Hmakedirs.
  unfold write_file. cbn [fs cwd set_fs]. rewrite Hres.
  change (py_str (PStr p)) with p. fold w2. rewrite Hlogged. reflexivity.
Qed.

Lemma after_creation (p content : string) (ds : list string) (f : string) (made : filesys)
    (dir : list string) (repo l : string) (u : pyval) (b : bool) (evs : list event) :
  starts_with_slash repo = true ->
  walk made [] (split_slash repo) = inr dir ->
  split_slash p = ds ++ [f] ->
  ds <> [] ->
  forallb plain ds = true ->
  plain f = true ->
  starts_with_slash p = false ->
  (p =? "") = false ->
  walk made dir ds = inr (dir ++ ds) ->
  is_dir (made !! (dir ++ ds ++ [f])) = false ->
  is_file (made !! (dir ++ [log_file])) = true ->
  let files := <[dir ++ [log_file] := File l]> (<[dir ++ ds ++ [f] := File content]> made) in
  let w1 := World repo u b dir files evs in
  repo_is_cwd w1 = true /\ log_exists w1 = true /\
  way_free files dir (ds ++ [f]) = true /\ parents_exist files dir (ds ++ [f]) = true /\
  read_file files dir p = Some content /\
  read_file files dir (path_join repo p) = Some content /\
  walk files dir ds = inr (dir ++ ds) /\
  files !! (dir ++ ds ++ [f]) = Some (File content).
Proof.
  intros Habs Hrepo Hsplit Hne Hds Hf Hrel Hpe Hwalk Hd Hlog files w1.
  assert (Hdiff : dir ++ [log_file] <> dir ++ ds ++ [f]).
  { intros H. apply app_inv_head in H. destruct ds as [|d [|d' ds']]; try discriminate.
    congruence. }
  assert (Htarget : files !! (dir ++ ds ++ [f]) = Some (File content)).
  { unfold files. rewrite lookup_insert_ne by exact Hdiff. apply lookup_insert_eq. }
  assert (Hdirs : forall q, is_dir (made !! q) = true -> is_dir (files !! q) = true).
  { intros q Hq. unfold files. apply dirs_insert_file.
    - rewrite lookup_insert_ne by (intros E; apply Hdiff; symmetry; exact E).
      destruct (made !! (dir ++ [log_file])) as [[|x]|]; try discriminate. reflexivity.
    - apply dirs_insert_file; assumption. }
  assert (Hwalk' : walk files dir ds = inr (dir ++ ds)).
  { apply (walk_dirs_preserved made files ds dir _ Hdirs Hwalk). }
  assert (Hrepo' : walk files [] (split_slash repo) = inr dir).
  { apply (walk_dirs_preserved made files _ [] _ Hdirs Hrepo). }
  assert (Hnotdir : is_dir (files !! (dir ++ ds ++ [f])) = false) by (rewrite Htarget; reflexivity).
  destruct (way_free_of_walk ds f files dir Hds Hwalk' Hnotdir) as [Hfree Hparents].
  destruct (plain_spec f Hf) as (Hs & Hu & _).
  assert (Hread : read_file files dir p = Some content).
  { unfold read_file, resolve_file. rewrite Hpe. unfold start_dir. rewrite Hrel. cbv zeta.
    rewrite Hsplit, removelast_last, last_last, Hwalk', Hs, Hu. simpl orb. cbv iota.
    rewrite node_at_snoc, <- app_assoc, Htarget. rewrite Htarget. reflexivity. }
  assert (Hreadfull : read_file files dir (path_join repo p) = Some content).
  { destruct (join_split repo p Habs Hrel) as (Hfull & cs & Hcs & Hcsw).
    unfold read_file, resolve_file. rewrite (absolute_not_empty _ Hfull). unfold start_dir.
    rewrite Hfull. cbv zeta.
    rewrite Hcs, Hsplit, app_assoc, removelast_last, last_last, walk_app, Hcsw, Hrepo', Hwalk'.
    rewrite Hs, Hu. simpl orb. cbv iota.
    rewrite node_at_snoc, <- app_assoc, Htarget. rewrite Htarget. reflexivity. }
  repeat split; auto.
  - unfold repo_is_cwd, w1. cbn [repo_path fs cwd]. rewrite Habs, Hrepo'.
    rewrite bool_decide_eq_true_2; reflexivity.
  - unfold log_exists, w1, files. cbn [fs cwd]. rewrite lookup_insert_eq. reflexivity.
Qed.


End Creation.

(** ** The test of the monitoring loop *)

Lemma has_E_app (a b : string) : has_E (a +:+ b) = has_E a || has_E b.
Proof.
  induction a as [|c a IH]; [reflexivity|].
  rewrite append_cons. simpl. rewrite IH. apply orb_assoc.
Qed.

Lemma contains_ERROR_has_E (s : string) : contains "ERROR" s = true -> has_E s = true.
Proof.
  induction s as [|c s IH]; [discriminate|].
  change (contains "ERROR" (String c s))
    with ((if ascii_dec "E" c then String.prefix "RROR" s else false) || contains "ERROR" s).
  cbn [has_E].
  destruct (ascii_dec "E" c) as [<-|Hne]; [reflexivity|].
  intros H. rewrite (IH H). apply orb_true_r.
Qed.

Lemma pretty_N_char_no_E (x : N) : Ascii.eqb (pretty_N_char x) "E" = false.
Proof. unfold pretty_N_char. repeat case_match; reflexivity. Qed.

Lemma pretty_N_go_no_E (x : N) (s : string) :
  has_E s = false -> has_E (pretty_N_go x s) = false.
Proof.
  revert s. induction (N.lt_wf_0 x) as [x _ IH]. intros s Hs.
  assert (x = 0 \/ 0 < x)%N as [->|Hpos] by lia.
  - rewrite pretty_N_go_0. exact Hs.
  - rewrite pretty_N_go_step by exact Hpos. apply IH.
    + apply N.div_lt; [exact Hpos | reflexivity].
    + simpl. rewrite pretty_N_char_no_E, Hs. reflexivity.
Qed.

Lemma pretty_Z_no_E (z : Z) : has_E (pretty z) = false.
Proof.
  assert (Hpos : forall x : positive, has_E (pretty x) = false).
  { intros x. unfold pretty, pretty_positive, pretty, pretty_N.
    case_decide; [reflexivity|]. apply pretty_N_go_no_E. reflexivity. }
  destruct z as [|x|x]; unfold pretty, pretty_Z; [reflexivity | apply Hpos |].
  rewrite has_E_app, Hpos. reflexivity.
Qed.

Section Polling.

Context {env : Environment}.

(** Whatever the status code, a turn of the monitoring loop appends no
    log record: the test ["ERROR" in health] fails on every answer to a
    status code. *)
Lemma poll_ignores_status (w : world) (code : Z) :
  monitoring_active w = true ->
  truthy (deployment_url w) = true ->
  http (deployment_url w) (length (trace w)) = Response code ->
  monitor_iteration w =
  (inr true, emit (EvSleep 60) (emit (EvHttpGet (deployment_url w)) w)).
Proof.
  intros Hon Hurl Hcode. unfold monitor_iteration. rewrite Hon.
  unfold bind at 1. rewrite check_application_health_cases, Hurl, Hcode. simpl negb. cbv iota.
  assert (Hno : forall s, has_E s = false -> contains "ERROR" s = false).
  { intros s Hs. destruct (contains "ERROR" s) eqn:Hc; [|reflexivity].
    rewrite (contains_ERROR_has_E s Hc) in Hs. discriminate. }
  destruct (code =? 200)%Z.
  - rewrite (Hno "✅ Application healthy") by reflexivity. reflexivity.
  - rewrite (Hno ("❌ Application issue: HTTP " +:+ pretty code)); [reflexivity|].
    rewrite has_E_app, pretty_Z_no_E. reflexivity.
Qed.

End Polling.

(** ** The properties at work *)

Example create_file_end_to_end :
  exists w,
    @execute_ai_instruction (sample_env 0 200) (PStr "CREATE_FILE")
      (PDict [("path", PStr "out/x.txt"); ("content", PStr "hi")]) fresh_world
    = (inr (Some "✅ Created: out/x.txt"), w) /\
    read_file (fs w) (cwd w) "out/x.txt" = Some "hi".
Proof. eexists. split; vm_compute; reflexivity. Qed.

Example check_health_without_deployment :
  @execute_ai_instruction (sample_env 0 200) (PStr "CHECK_HEALTH") (PDict []) fresh_world
  = (inr (Some "No deployment URL set"), fresh_world).
Proof. reflexivity. Qed.

Example construction_logs_once :
  (@init (sample_env 0 200) ["repo"] sample_files).1 = inr tt /\
  log_count (trace (@init (sample_env 0 200) ["repo"] sample_files).2) = 1 /\
  repo_path (@init (sample_env 0 200) ["repo"] sample_files).2 = "/repo".
Proof. repeat split; vm_compute; reflexivity. Qed.

Lemma missing_key_is_reported_witness :
  exists s,
    @execute_ai_instruction (sample_env 0 200) (PStr "CREATE_FILE")
      (PDict [("path", PStr "out/x.txt")]) fresh_world = (inr (Some s), fresh_world) /\
    s = "Error: 'content'".
Proof.
  destruct (@missing_key_is_reported (sample_env 0 200) "CREATE_FILE"
              [("path", PStr "out/x.txt")] "content" fresh_world eq_refl)
    as (s & Hs & Htext & _).
  exists s. split; [exact Hs | exact Htext].
Defined.

Lemma check_application_health_classifies_witness :
  exists s,
    (@check_application_health (sample_env 0 500) deployed_world).1 = inr s /\
    contains (pretty 500%Z) s = true.
Proof.
  destruct (@check_application_health_classifies (sample_env 0 500) deployed_world)
    as (_ & Hstatus & _).
  destruct (Hstatus eq_refl 500%Z eq_refl) as [_ Hissue].
  destruct (Hissue ltac:(discriminate)) as (s & Hs & _ & Hcode).
  exists s. split; [exact Hs | exact Hcode].
Defined.





(** C5 at work: with a deployment answering 500, and with one that
    cannot be reached, the health check reports the trouble and a turn
    of the monitoring loop sends the request, sleeps, and appends no
    [HEALTH_ISSUE] record. *)
Theorem poll_skips_health_issues :
  (@check_application_health (sample_env 0 500) monitored_world).1
    = inr "❌ Application issue: HTTP 500" /\
  @monitor_iteration (sample_env 0 500) monitored_world
    = (inr true,
       emit (EvSleep 60) (emit (EvHttpGet (PStr "http://localhost:3000")) monitored_world)) /\
  log_count (events_since monitored_world
               (@monitor_iteration (sample_env 0 500) monitored_world).2) = 0 /\
  (@check_application_health offline_env monitored_world).1
    = inr "❌ Application error: Connection refused" /\
  @monitor_iteration offline_env monitored_world
    = (inr true,
       emit (EvSleep 60) (emit (EvHttpGet (PStr "http://localhost:3000")) monitored_world)) /\
  log_count (events_since monitored_world
               (@monitor_iteration offline_env monitored_world).2) = 0.
Proof. repeat split; vm_compute; reflexivity. Qed.



(** C7 refuted as stated: [RUN_COMMAND] is none of the nine actions the
    banner lists, and yet it is dispatched to a handler. *)
Lemma run_command_is_not_advertised :
  ~ (forall (instruction_type payload : pyval) (w : world),
       (forall a, In a advertised_actions -> instruction_type <> PStr a) ->
       @execute_ai_instruction (sample_env 0 200) instruction_type payload w = (inr None, w)).
Proof.
  intros H.
  specialize (H (PStr "RUN_COMMAND") (PDict [("command", PStr "ls")]) fresh_world).
  assert (Hrun : (@execute_ai_instruction (sample_env 0 200) (PStr "RUN_COMMAND")
                    (PDict [("command", PStr "ls")]) fresh_world).1
                 = inr (Some "Command executed"))
    by (vm_compute; reflexivity).
  rewrite H in Hrun; [discriminate|].
  intros a Hin. simpl in Hin.
  repeat (destruct Hin as [<-|Hin]; [discriminate|]). contradiction.
Qed.

Lemma unrecognized_action_returns_nothing_witness :
  @execute_ai_instruction (sample_env 0 200) (PStr "DELETE_EVERYTHING") (PDict []) fresh_world
  = (inr None, fresh_world).
Proof.
  apply (@unrecognized_action_returns_nothing (sample_env 0 200)).
  intros a Hin. simpl in Hin.
  repeat (destruct Hin as [<-|Hin]; [discriminate|]). contradiction.
Defined.

Lemma repo_path_is_immutable_witness :
  repo_path
    (@execute_ai_instruction (sample_env 0 200) (PStr "DEPLOY_PROJECT")
       (PDict [("deploy_type", PStr "docker")])
       (@init (sample_env 0 200) ["repo"] sample_files).2).2 = "/repo".
Proof.
  destruct (@repo_path_is_immutable (sample_env 0 200)
              (@init (sample_env 0 200) ["repo"] sample_files).2
              (@execute_ai_instruction (sample_env 0 200) (PStr "DEPLOY_PROJECT")
                 (PDict [("deploy_type", PStr "docker")])
                 (@init (sample_env 0 200) ["repo"] sample_files).2).2
              (rtc_once _ _ (step_dispatch _ _ _)))
    as [_ Hinit].
  exact (Hinit ["repo"] sample_files eq_refl).
Defined.


(** ** A frame rule for the whole bridge *)

Section Invariant.

Context {env : Environment}.

Variable R : world -> world -> Prop.

Hypothesis R_refl : forall w, R w w.
Hypothesis R_trans : forall w1 w2 w3, R w1 w2 -> R w2 w3 -> R w1 w3.
Hypothesis R_emit : forall e w, R w (emit e w).
Hypothesis R_url : forall u w, R w (set_deployment_url u w).
Hypothesis R_start : forall w, R w (set_monitoring_active true w).
Hypothesis R_mkdirs :
  forall p w made, os_makedirs (fs w) (cwd w) p = inr made -> R w (set_fs made w).
Hypothesis R_write :
  forall p w f c, resolve_file (fs w) (cwd w) p = inr f ->
    R w (set_fs (<[f := File c]> (fs w)) w).

Lemma preserves_ret {A} (a : A) : preserves R (ret a).
Proof. intros w. apply R_refl. Qed.

Lemma preserves_raise {A} (e : exn) : preserves R (@raise A e).
Proof. intros w. apply R_refl. Qed.

Lemma preserves_bind {A B} (m : M A) (k : A -> M B) :
  preserves R m -> (forall a, preserves R (k a)) -> preserves R (bind m k).
Proof.
  intros Hm Hk w. unfold bind. specialize (Hm w).
  destruct (m w) as [[e|a] w1]; simpl in *; [exact Hm|].
  eapply R_trans; [exact Hm | apply Hk].
Qed.

Lemma preserves_try_except {A} (m : M A) (h : exn -> M A) :
  preserves R m -> (forall e, preserves R (h e)) -> preserves R (try_except m h).
Proof.
  intros Hm Hh w. unfold try_except. specialize (Hm w).
  destruct (m w) as [[e|a] w1]; simpl in *; [|exact Hm].
  eapply R_trans; [exact Hm | apply Hh].
Qed.

Lemma preserves_if {A} (b : bool) (m1 m2 : M A) :
  preserves R m1 -> preserves R m2 -> preserves R (if b then m1 else m2).
Proof. destruct b; auto. Qed.

Lemma preserves_log_status (status : string) : preserves R (log_status status).
Proof.
  intros w. unfold log_status.
  destruct (resolve_file (fs w) (cwd w) log_file) as [e|f] eqn:Hf; simpl; [apply R_refl|].
  eapply R_trans; [eapply R_write; exact Hf | apply R_emit].
Qed.

Lemma preserves_emit (e : event) : preserves R (effect (emit e)).
Proof. intros w. apply R_emit. Qed.

Lemma preserves_join_repo (filepath : pyval) : preserves R (join_repo filepath).
Proof. intros w. unfold join_repo. destruct filepath; apply R_refl. Qed.

Lemma preserves_makedirs (p : string) : preserves R (makedirs p).
Proof.
  intros w. unfold makedirs.
  destruct (os_makedirs (fs w) (cwd w) p) as [e|made] eqn:Hm; simpl;
    [apply R_refl | exact (R_mkdirs p w made Hm)].
Qed.

Lemma preserves_write_file (p : string) (content : pyval) : preserves R (write_file p content).
Proof.
  intros w. unfold write_file.
  destruct (resolve_file (fs w) (cwd w) p) as [e|f] eqn:Hf; simpl; [apply R_refl|].
  destruct content; eapply R_write; exact Hf.
Qed.

Lemma preserves_subprocess_run (command : pyval) : preserves R (subprocess_run command).
Proof.
  intros w. unfold subprocess_run.
  destruct (shell _ _ _); simpl; [apply R_refl | apply R_emit].
Qed.

Lemma preserves_check_application_health : preserves R check_application_health.
Proof.
  intros w. rewrite check_application_health_cases.
  destruct (negb _); simpl; [apply R_refl | apply R_emit].
Qed.

Lemma preserves_create_file (filepath content : pyval) :
  preserves R (create_file filepath content).
Proof.
  unfold create_file.
  apply preserves_bind; [apply preserves_join_repo | intros full_path].
  apply preserves_bind; [apply preserves_makedirs | intros _].
  apply preserves_bind; [apply preserves_write_file | intros _].
  apply preserves_bind; [apply preserves_log_status | intros _; apply preserves_ret].
Qed.

Lemma preserves_run_command (command : pyval) : preserves R (run_command command).
Proof.
  unfold run_command.
  apply preserves_bind; [apply preserves_subprocess_run | intros result].
  apply preserves_bind; [apply preserves_log_status | intros _; apply preserves_ret].
Qed.

Lemma preserves_deployed (command endpoint label : string) :
  preserves R
    (bind (run_command (PStr command))
       (fun _ => bind (assign_deployment_url (PStr endpoint))
          (fun _ => bind deployment_url_str (fun u => ret (label +:+ u))))).
Proof.
  apply preserves_bind; [apply preserves_run_command | intros _].
  apply preserves_bind; [intros w; apply R_url | intros _].
  apply preserves_bind; [intros w; apply R_refl | intros u; apply preserves_ret].
Qed.

Lemma preserves_deploy_project (deploy_type : pyval) :
  preserves R (deploy_project deploy_type).
Proof.
  unfold deploy_project.
  apply preserves_bind; [apply preserves_log_status | intros _].
  repeat apply preserves_if; first [apply preserves_deployed | apply preserves_ret].
Qed.

Lemma preserves_start_monitoring (url : pyval) : preserves R (start_monitoring url).
Proof.
  unfold start_monitoring.
  apply preserves_bind; [intros w; apply R_url | intros _].
  apply preserves_bind; [intros w; apply R_start | intros _].
  apply preserves_bind; [apply preserves_emit | intros _; apply preserves_ret].
Qed.

Lemma preserves_auto_fix_issues (issue_type : pyval) :
  preserves R (auto_fix_issues issue_type).
Proof.
  unfold auto_fix_issues.
  apply preserves_bind; [apply preserves_log_status | intros _].
  apply preserves_if.
  { apply preserves_bind; [apply preserves_run_command | intros _; apply preserves_ret]. }
  apply preserves_if; [apply preserves_deploy_project|].
  apply preserves_if; [|apply preserves_ret].
  apply preserves_bind; [apply preserves_create_file | intros _; apply preserves_ret].
Qed.

Lemma preserves_create_files (items : list (string * pyval)) :
  preserves R (create_files items).
Proof.
  induction items as [|[file_path content] rest IH]; simpl; [apply preserves_ret|].
  apply preserves_bind; [apply preserves_create_file | intros _; exact IH].
Qed.

Lemma preserves_add_feature (feature_name files : pyval) :
  preserves R (add_feature feature_name files).
Proof.
  unfold add_feature.
  apply preserves_bind; [apply preserves_log_status | intros _].
  apply preserves_bind.
  { destruct files; first [apply preserves_ret | apply preserves_raise]. }
  intros items.
  apply preserves_bind; [apply preserves_create_files | intros _].
  apply preserves_bind; [apply preserves_deploy_project | intros _; apply preserves_ret].
Qed.

Lemma preserves_run_tests : preserves R run_tests.
Proof.
  unfold run_tests.
  apply preserves_bind; [apply preserves_run_command | intros result; apply preserves_ret].
Qed.

Lemma preserves_backup_project : preserves R backup_project.
Proof.
  unfold backup_project.
  apply preserves_bind; [intros w; apply R_refl | intros timestamp].
  apply preserves_bind; [apply preserves_run_command | intros _].
  apply preserves_bind; [apply preserves_run_command | intros _; apply preserves_ret].
Qed.

Lemma preserves_git_commit (message : pyval) : preserves R (git_commit message).
Proof.
  unfold git_commit.
  apply preserves_bind; [apply preserves_run_command | intros _].
  apply preserves_bind; [apply preserves_run_command | intros _].
  apply preserves_bind; [apply preserves_run_command | intros _; apply preserves_ret].
Qed.

Lemma preserves_getitem (payload : pyval) (key : string) : preserves R (getitem payload key).
Proof. intros w. apply R_refl. Qed.

Lemma preserves_returning (m : M string) : preserves R m -> preserves R (returning m).
Proof.
  intros Hm. unfold returning.
  apply preserves_bind; [exact Hm | intros r; apply preserves_ret].
Qed.

Lemma preserves_dispatch (instruction_type payload : pyval) :
  preserves R (dispatch instruction_type payload).
Proof.
  unfold dispatch.
  repeat lazymatch goal with
         | |- preserves R (if _ then _ else _) => apply preserves_if
         | |- preserves R (bind (getitem _ _) _) =>
             apply preserves_bind; [apply preserves_getitem | intro]
         | |- preserves R (returning _) => apply preserves_returning
         | |- preserves R (create_file _ _) => apply preserves_create_file
         | |- preserves R (run_command _) => apply preserves_run_command
         | |- preserves R (deploy_project _) => apply preserves_deploy_project
         | |- preserves R (start_monitoring _) => apply preserves_start_monitoring
         | |- preserves R check_application_health => apply preserves_check_application_health
         | |- preserves R (auto_fix_issues _) => apply preserves_auto_fix_issues
         | |- preserves R (add_feature _ _) => apply preserves_add_feature
         | |- preserves R (git_commit _) => apply preserves_git_commit
         | |- preserves R run_tests => apply preserves_run_tests
         | |- preserves R backup_project => apply preserves_backup_project
         | |- preserves R (ret _) => apply preserves_ret
         end.
Qed.

Lemma preserves_execute (instruction_type payload : pyval) :
  preserves R (execute_ai_instruction instruction_type payload).
Proof.
  unfold execute_ai_instruction.
  apply preserves_try_except; [apply preserves_dispatch | intro; apply preserves_ret].
Qed.

Lemma preserves_monitor_iteration : preserves R monitor_iteration.
Proof.
  intros w. unfold monitor_iteration.
  destruct (monitoring_active w); [|apply R_refl].
  revert w. apply preserves_bind; [apply preserves_check_application_health | intros health].
  apply preserves_bind.
  { apply preserves_if; [apply preserves_log_status | apply preserves_ret]. }
  intros _. apply preserves_bind; [apply preserves_emit | intros _; apply preserves_ret].
Qed.

Lemma preserves_monitor (fuel : nat) : preserves R (monitor fuel).
Proof.
  induction fuel as [|n IH]; simpl; [apply preserves_ret|].
  apply preserves_bind; [apply preserves_monitor_iteration | intros again].
  destruct again; [exact IH | apply preserves_ret].
Qed.

Lemma preserves_setup_bridge : preserves R setup_bridge.
Proof.
  unfold setup_bridge.
  apply preserves_bind; [apply preserves_emit | intros _].
  apply preserves_bind; [intros w; apply R_emit | intros _].
  apply preserves_bind; [apply preserves_emit | intros _; apply preserves_log_status].
Qed.

End Invariant.

(** ** Invariants of the running bridge *)

Lemma flag_stays_refl (w : world) : flag_stays w w.
Proof. intros H. exact H. Qed.

Lemma flag_stays_trans (w1 w2 w3 : world) :
  flag_stays w1 w2 -> flag_stays w2 w3 -> flag_stays w1 w3.
Proof. unfold flag_stays. auto. Qed.

Lemma disk_kept_refl (w : world) : disk_kept w w.
Proof. repeat split; auto. Qed.

Lemma disk_kept_trans (w1 w2 w3 : world) :
  disk_kept w1 w2 -> disk_kept w2 w3 -> disk_kept w1 w3.
Proof.
  intros (Hr1 & Hc1 & Hk1) (Hr2 & Hc2 & Hk2).
  split; [congruence|]. split; [congruence|].
  intros q. destruct (Hk1 q) as [Hd1 Hf1]. destruct (Hk2 q) as [Hd2 Hf2]. split; auto.
Qed.

Lemma mkdirs_keeps (cs : list string) (files : filesys) (cur : list string) (made : filesys) :
  mkdirs files cur cs = inr made ->
  forall q n, files !! q = Some n -> made !! q = Some n.
Proof.
  revert files cur. induction cs as [|c cs IH]; intros files cur; simpl.
  - intros [= <-]. auto.
  - destruct (stays c); [apply IH|]. destruct (c =? ".."); [apply IH|].
    rewrite node_at_snoc.
    destruct (files !! (cur ++ [c])) as [[|x]|] eqn:Hn; [apply IH | discriminate |].
    intros Hm q n Hq. apply (IH _ _ Hm).
    rewrite lookup_insert_ne; [exact Hq|]. intros <-. congruence.
Qed.

Lemma resolve_file_not_dir (files : filesys) (dir : list string) (p : string) (f : list string) :
  resolve_file files dir p = inr f -> is_dir (files !! f) = false.
Proof.
  unfold resolve_file. destruct (p =? ""); [discriminate|].
  destruct (walk files (start_dir dir p) (removelast (split_slash p))) as [e|d]; [discriminate|].
  destruct (stays _ || _); [discriminate|]. rewrite node_at_snoc.
  destruct (files !! (d ++ [List.last (split_slash p) ""])) as [[|x]|] eqn:Hn;
    [discriminate | |]; intros [= <-]; rewrite Hn; reflexivity.
Qed.

Lemma files_insert_file (files : filesys) (k q : list string) (c : string) :
  is_file (files !! q) = true -> is_file (<[k := File c]> files !! q) = true.
Proof.
  intros Hq. destruct (decide (k = q)) as [->|Hne].
  - rewrite lookup_insert_eq. reflexivity.
  - rewrite lookup_insert_ne by exact Hne. exact Hq.
Qed.

Lemma disk_kept_write (p : string) (w : world) (f : list string) (c : string) :
  resolve_file (fs w) (cwd w) p = inr f ->
  disk_kept w (set_fs (<[f := File c]> (fs w)) w).
Proof.
  intros Hf. split; [reflexivity|]. split; [reflexivity|].
  intros q. cbn [fs set_fs]. split.
  - apply dirs_insert_file. exact (resolve_file_not_dir _ _ _ _ Hf).
  - apply files_insert_file.
Qed.

Lemma disk_kept_mkdirs (p : string) (w : world) (made : filesys) :
  os_makedirs (fs w) (cwd w) p = inr made -> disk_kept w (set_fs made w).
Proof.
  unfold os_makedirs. destruct (p =? ""); [discriminate|]. intros Hm.
  split; [reflexivity|]. split; [reflexivity|].
  intros q. cbn [fs set_fs].
  split; intros Hq; destruct (fs w !! q) as [[|x]|] eqn:E; try discriminate;
    rewrite (mkdirs_keeps _ _ _ _ Hm _ _ E); reflexivity.
Qed.

Section Running.

Context {env : Environment}.

Lemma execute_keeps_flag (instruction_type payload : pyval) :
  preserves flag_stays (execute_ai_instruction instruction_type payload).
Proof.
  apply (preserves_execute flag_stays flag_stays_refl flag_stays_trans);
    unfold flag_stays; simpl; auto.
Qed.

Lemma poll_keeps_flag : preserves flag_stays monitor_iteration.
Proof.
  apply (preserves_monitor_iteration flag_stays flag_stays_refl flag_stays_trans);
    unfold flag_stays; simpl; auto.
Qed.

(** X1. No dispatched instruction and no turn of the monitoring loop
    clears [monitoring_active]: once set, the flag stays set however
    instructions and polls follow one another.  Only the main loop's
    [exit] clears it. *)
Theorem monitoring_is_never_switched_off (w w' : world) :
  rtc working w w' ->
  monitoring_active w = true ->
  monitoring_active w' = true.
Proof.
  intros Hrun. induction Hrun as [w | w w1 w2 Hstep _ IH]; [auto|].
  intros Hon. apply IH. destruct Hstep.
  - apply execute_keeps_flag, Hon.
  - apply poll_keeps_flag, Hon.
Qed.

Lemma execute_keeps_disk (instruction_type payload : pyval) :
  preserves disk_kept (execute_ai_instruction instruction_type payload).
Proof.
  apply (preserves_execute disk_kept disk_kept_refl disk_kept_trans);
    first [ apply disk_kept_write | apply disk_kept_mkdirs
          | intros; repeat split; intros; assumption ].
Qed.

Lemma poll_keeps_disk : preserves disk_kept monitor_iteration.
Proof.
  apply (preserves_monitor_iteration disk_kept disk_kept_refl disk_kept_trans);
    first [ apply disk_kept_write | intros; repeat split; intros; assumption ].
Qed.

Lemma reachable_disk_kept (w0 w : world) : reachable w0 w -> disk_kept w0 w.
Proof.
  intros Hreach. unfold reachable in Hreach.
  induction Hreach as [w | w w1 w2 Hstep _ IH]; [apply disk_kept_refl|].
  eapply disk_kept_trans; [|exact IH]. destruct Hstep.
  - apply execute_keeps_disk.
  - apply poll_keeps_disk.
  - repeat split; intros; assumption.
Qed.

Lemma disk_kept_log (w w' : world) :
  disk_kept w w' -> log_exists w = true -> log_exists w' = true /\ log_writable w' = true.
Proof.
  intros (_ & Hc & Hk) Hlog. unfold log_exists in *.
  destruct (Hk (cwd w ++ [log_file])) as [_ Hf]. specialize (Hf Hlog).
  rewrite log_writable_spec, Hc. split; [exact Hf|].
  destruct (fs w' !! (cwd w ++ [log_file])) as [[|x]|]; try discriminate. reflexivity.
Qed.

Lemma disk_kept_repo (w w' : world) :
  disk_kept w w' -> repo_is_cwd w = true -> repo_is_cwd w' = true.
Proof.
  intros (Hr & Hc & Hk) Hrepo. destruct (repo_is_cwd_spec w Hrepo) as [Habs Hwalk].
  unfold repo_is_cwd. rewrite Hr, Habs, Hc.
  rewrite (walk_dirs_preserved (fs w) (fs w') _ [] (cwd w)); [|intros q; apply Hk | exact Hwalk].
  rewrite bool_decide_eq_true_2; reflexivity.
Qed.

(** X2. The file operations of the bridge never remove an entry of the
    disk and never change its kind: after any sequence of dispatches,
    polls and [exit], what was a directory is a directory and what was
    a regular file is a regular file.  So a log file that exists stays
    writable, and a repository path that names the working directory
    goes on naming it.  (What child processes do to the disk is outside
    the model.) *)
Theorem disk_is_only_added_to (w0 w : world) :
  reachable w0 w ->
  (forall q, (is_dir (fs w0 !! q) = true -> is_dir (fs w !! q) = true) /\
             (is_file (fs w0 !! q) = true -> is_file (fs w !! q) = true)) /\
  (log_exists w0 = true -> log_exists w = true /\ log_writable w = true) /\
  (repo_is_cwd w0 = true -> repo_is_cwd w = true).
Proof.
  intros Hreach. pose proof (reachable_disk_kept w0 w Hreach) as Hkept.
  split; [apply Hkept|]. split.
  - apply disk_kept_log, Hkept.
  - apply disk_kept_repo, Hkept.
Qed.

End Running.

(** ** Construction *)



Section Construction.

Context {env : Environment}.

Lemma init_result (dir : list string) (files : filesys) :
  init dir files =
  if is_dir (files !! (dir ++ [log_file]))
  then (inl (OSError IsADirectoryError log_file),
        World (getcwd dir) PNone false dir files
          [EvPrint "🤖 AI FULL-LIFECYCLE BRIDGE ACTIVATED";
           EvPrint ("📍 Repo: " +:+ getcwd dir);
           EvPrint "🔧 Capabilities: Develop → Deploy → Monitor → Evolve"])
  else (inr tt,
        World (getcwd dir) PNone false dir
          (<[dir ++ [log_file] :=
               File (log_text files dir +:+ clock 3 +:+ ": " +:+ "FULL_LIFECYCLE_ACTIVE" +:+ nl)]>
             files)
          [EvPrint "🤖 AI FULL-LIFECYCLE BRIDGE ACTIVATED";
           EvPrint ("📍 Repo: " +:+ getcwd dir);
           EvPrint "🔧 Capabilities: Develop → Deploy → Monitor → Evolve";
           EvLog (clock 3 +:+ ": " +:+ "FULL_LIFECYCLE_ACTIVE" +:+ nl)]).
Proof.
  unfold init, setup_bridge, bind, print, effect, log_status, log_text. cbn [fst snd].
  cbn [emit fs cwd trace repo_path deployment_url monitoring_active app length].
  rewrite resolve_log_file.
  destruct (files !! (dir ++ [log_file])) as [[|c]|] eqn:E; cbn [is_dir]; cbv iota;
    rewrite ?E; reflexivity.
Qed.




End Construction.

(** ** Monitoring and the handlers that run commands *)

Section Handlers.

Context {env : Environment}.

(** X5. [start_monitoring] records whatever URL it is given, an empty
    string or another falsy value included, and turns monitoring on.  A
    health check after it answers ["No deployment URL set"] and sends
    nothing when the URL is falsy, and sends its one request to that URL
    when it is not. *)
Theorem health_check_after_start_monitoring (url : pyval) (w : world) :
  exists w1,
    start_monitoring url w = (inr ("🔍 Monitoring started: " +:+ py_str url), w1) /\
    monitoring_active w1 = true /\ deployment_url w1 = url /\
    (truthy url = false ->
     check_application_health w1 = (inr "No deployment URL set", w1)) /\
    (truthy url = true ->
     events_since w1 (check_application_health w1).2 = [EvHttpGet url]).
Proof.
  eexists. split; [reflexivity|]. split; [reflexivity|]. split; [reflexivity|].
  rewrite check_application_health_cases.
  cbn [deployment_url set_deployment_url set_monitoring_active emit].
  split; intros ->; [reflexivity|].
  cbn [negb snd]. unfold events_since. cbn [trace emit]. rewrite drop_app_length. reflexivity.
Qed.

(** X6. Nothing guards [start_monitoring] against a monitoring that is
    already on: two calls start two threads, whatever the flag was, and
    the second URL replaces the first. *)
Theorem start_monitoring_twice (url1 url2 : pyval) (w : world) :
  let w2 := (start_monitoring url2 (start_monitoring url1 w).2).2 in
  thread_starts (events_since w w2) = 2 /\
  log_count (events_since w w2) = 0 /\
  deployment_url w2 = url2 /\
  monitoring_active w2 = true.
Proof.
  intros w2.
  assert (Ht : trace w2 = trace w ++ [EvThreadStart; EvThreadStart]).
  { unfold w2. cbn. rewrite <- app_assoc. reflexivity. }
  rewrite (events_since_app w w2 _ Ht). repeat split.
Qed.

Lemma run_command_runs (command : pyval) (w : world) :
  log_writable w = true ->
  shell_completes w ->
  exists r record files,
    run_command command w =
    (inr (command_output r),
     World (repo_path w) (deployment_url w) (monitoring_active w) (cwd w) files
       (trace w ++ [EvShell command; EvLog record])) /\
    is_file (files !! (cwd w ++ [log_file])) = true.
Proof.
  intros Hlog Hshell. destruct (Hshell command (length (trace w))) as [r Hr].
  destruct (run_command_succeeds command w r Hr Hlog) as (record & files & Hrun & Hf).
  exists r, record, files. split; assumption.
Qed.

Ltac next_command H :=
  lazymatch goal with
  | |- context [run_command ?c ?w1] =>
      let r := fresh "r" in
      let record := fresh "record" in
      let files := fresh "files" in
      let Hrun := fresh "Hrun" in
      let Hf := fresh "Hf" in
      destruct (run_command_runs c w1) as (r & record & files & Hrun & Hf);
      [ first [assumption | apply log_file_writable; assumption] | exact H | ];
      cbn [repo_path deployment_url monitoring_active cwd trace] in Hrun;
      rewrite Hrun; clear Hrun
  end.


(** X8. [backup_project] reads the clock once: the tag it creates with
    [git tag] and the tag it reports are the same [backup-<timestamp>],
    and the tags are pushed afterwards whatever [git tag] answered. *)
Theorem backup_project_names_one_tag (w : world) :
  log_writable w = true ->
  shell_completes w ->
  exists w',
    backup_project w
      = (inr ("💾 Backup created: backup-" +:+ clock_stamp (length (trace w))), w') /\
    commands_run (events_since w w') =
      [PStr ("git tag backup-" +:+ clock_stamp (length (trace w))); PStr "git push --tags"] /\
    log_count (events_since w w') = 2.
Proof.
  intros Hlog Hshell. unfold backup_project, strftime_now.
  unfold bind at 1. cbv beta iota.
  unfold bind at 1. next_command Hshell.
  unfold bind at 1. next_command Hshell.
  eexists. split; [reflexivity|].
  unfold events_since. cbn [trace]. rewrite <- !app_assoc, drop_app_length.
  repeat split.
Qed.

(** X9. [run_tests] runs the one fallback chain of test commands and
    answers ["🧪 Tests executed: "] followed by what [run_command] makes
    of the captured output; a failing run that prints nothing is
    reported as ["🧪 Tests executed: Command executed"]. *)
Theorem run_tests_reports_output (w : world) (r : completed_process) :
  log_writable w = true ->
  shell (PStr "python -m pytest || npm test || echo 'No tests found'") (repo_path w)
    (length (trace w)) = inr r ->
  exists w',
    run_tests w = (inr ("🧪 Tests executed: " +:+ command_output r), w') /\
    commands_run (events_since w w')
      = [PStr "python -m pytest || npm test || echo 'No tests found'"] /\
    (stdout r = "" -> stderr r = "" ->
     run_tests w = (inr "🧪 Tests executed: Command executed", w')).
Proof.
  intros Hlog Hr. unfold run_tests, bind.
  destruct (run_command_succeeds _ w r Hr Hlog) as (record & files & -> & _).
  eexists. split; [reflexivity|]. split.
  - unfold events_since. cbn [trace]. rewrite drop_app_length. reflexivity.
  - intros Hout Herr. unfold command_output. rewrite Hout, Herr. reflexivity.
Qed.

(** ** Fixing, adding features, and failing *)



Lemma log_status_keeps_disk (status : string) : preserves disk_kept (log_status status).
Proof.
  apply (preserves_log_status disk_kept disk_kept_refl disk_kept_trans);
    first [ apply disk_kept_write | intros; repeat split; intros; assumption ].
Qed.

(** X11. For [database_connection], [auto_fix_issues] writes the fixed
    four-line script to [config/fix_database.py] under the repository,
    making [config] if it is missing and replacing a script that is
    there; it runs no command. *)
Theorem auto_fix_database_writes_script (w : world) :
  repo_is_cwd w = true ->
  log_exists w = true ->
  way_free (fs w) (cwd w) ["config"; "fix_database.py"] = true ->
  exists w',
    auto_fix_issues (PStr "database_connection") w = (inr "✅ Database issues addressed", w') /\
    read_file (fs w') (cwd w') "config/fix_database.py" = Some fix_database_script /\
    commands_run (events_since w w') = [] /\
    log_count (events_since w w') = 2.
Proof.
  intros Hrepo Hlog Hfree.
  assert (Hw : log_writable w = true).
  { apply (disk_kept_log w w (disk_kept_refl w) Hlog). }
  destruct (log_status_writable ("AUTO_FIXING: " +:+ py_str (PStr "database_connection")) w Hw)
    as [old Hlogged].
  match type of Hlogged with _ = (_, ?x) => set (w1 := x) in * end.
  assert (Hkept : disk_kept w w1).
  { pose proof (log_status_keeps_disk
                  ("AUTO_FIXING: " +:+ py_str (PStr "database_connection")) w) as H.
    rewrite Hlogged in H. exact H. }
  pose proof (disk_kept_repo w w1 Hkept Hrepo) as Hrepo1.
  destruct (disk_kept_log w w1 Hkept Hlog) as [Hlog1 _].
  assert (Hfree1 : way_free (fs w1) (cwd w1) (["config"] ++ ["fix_database.py"]) = true).
  { unfold w1. cbn [fs cwd set_fs emit app way_free] in *.
    rewrite !lookup_insert_ne; [exact Hfree| |];
      intros H; rewrite <- ?app_assoc in H; apply app_inv_head in H; discriminate. }
  destruct (create_file_succeeds "config/fix_database.py" fix_database_script
              ["config"] "fix_database.py" w1 Hrepo1 Hlog1 eq_refl eq_refl eq_refl eq_refl Hfree1)
    as (made & record & old' & Hcreate & Hmk & Hwalk & Hd & Hmono & _).
  destruct (repo_is_cwd_spec w1 Hrepo1) as [Habs Hcwd].
  assert (Hdirs : forall q, is_dir (fs w1 !! q) = true -> is_dir (made !! q) = true).
  { intros q Hq. destruct (fs w1 !! q) as [[|x]|] eqn:E; try discriminate.
    rewrite (Hmono _ _ E). reflexivity. }
  assert (Hcwd' : walk made [] (split_slash (repo_path w1)) = inr (cwd w1)).
  { apply (walk_dirs_preserved (fs w1) made _ [] _ Hdirs Hcwd). }
  assert (Hlog' : is_file (made !! (cwd w1 ++ [log_file])) = true).
  { unfold log_exists in Hlog1.
    destruct (fs w1 !! (cwd w1 ++ [log_file])) as [[|x]|] eqn:E; try discriminate.
    rewrite (Hmono _ _ E). reflexivity. }
  destruct (after_creation "config/fix_database.py" fix_database_script ["config"]
              "fix_database.py" made (cwd w1) (repo_path w1) (old' +:+ record)
              (deployment_url w1) (monitoring_active w1) (trace w1 ++ [EvLog record])
              Habs Hcwd' eq_refl ltac:(discriminate) eq_refl eq_refl eq_refl eq_refl
              Hwalk Hd Hlog')
    as (_ & _ & _ & _ & Hread & _).
  match type of Hcreate with _ = (_, ?x) => exists x end.
  split; [|split; [exact Hread|]].
  - unfold auto_fix_issues. unfold bind at 1. rewrite Hlogged.
    cbn [py_eq_str String.eqb Ascii.eqb Bool.eqb].
    unfold bind at 1. fold fix_database_script. unfold fix_database_script in Hcreate |- *.
    rewrite Hcreate. reflexivity.
  - unfold events_since, w1. cbn [trace emit set_fs]. rewrite <- !app_assoc, drop_app_length.
    repeat split.
Qed.

End Handlers.

(** ** Features and failures *)

Section Failures.

Context {env : Environment}.





















End Failures.

(** ** The monitoring thread *)


Lemma sleeps_app (evs1 evs2 : list event) : sleeps (evs1 ++ evs2) = sleeps evs1 + sleeps evs2.
Proof.
  induction evs1 as [|e evs1 IH]; [reflexivity|].
  destruct e; simpl; rewrite IH; reflexivity.
Qed.

Section Monitoring.

Context {env : Environment}.


Lemma quiet_turn (w : world) :
  monitoring_active w = true ->
  (forall url n, exists code, http url n = Response code) ->
  exists evs,
    monitor_iteration w
      = (inr true, World (repo_path w) (deployment_url w) true (cwd w) (fs w) (trace w ++ evs)) /\
    sleeps evs = 1 /\ log_count evs = 0.
Proof.
  intros Hon Hhttp. destruct (truthy (deployment_url w)) eqn:Hurl.
  - destruct (Hhttp (deployment_url w) (length (trace w))) as [code Hcode].
    rewrite (poll_ignores_status w code Hon Hurl Hcode).
    exists [EvHttpGet (deployment_url w); EvSleep 60].
    unfold emit. cbn [repo_path deployment_url monitoring_active cwd fs trace].
    rewrite Hon, <- app_assoc. repeat split.
  - unfold monitor_iteration. rewrite Hon.
    unfold bind at 1. rewrite check_application_health_cases, Hurl. cbn [negb].
    exists [EvSleep 60]. unfold bind, sleep, effect, ret, emit. cbn. rewrite Hon. repeat split.
Qed.

(** X16. The loop of the monitoring thread ends at once when it finds
    the flag cleared, and never by itself: with the flag set and an
    endpoint that answers, it completes as many turns as it is given
    time for, sleeping once in each and logging nothing, and the flag
    is still set. *)
Theorem monitor_runs_until_flag_cleared (fuel : nat) (w : world) :
  (monitoring_active w = false -> monitor (S fuel) w = (inr tt, w)) /\
  (monitoring_active w = true ->
   (forall url n, exists code, http url n = Response code) ->
   exists w',
     monitor fuel w = (inr tt, w') /\
     sleeps (events_since w w') = fuel /\
     log_count (events_since w w') = 0 /\
     monitoring_active w' = true).
Proof.
  split.
  - intros Hoff. simpl. unfold bind, monitor_iteration. rewrite Hoff. reflexivity.
  - intros Hon Hhttp.
    assert (Hloop : forall n w0, monitoring_active w0 = true ->
              exists evs,
                monitor n w0
                  = (inr tt, World (repo_path w0) (deployment_url w0) true (cwd w0) (fs w0)
                               (trace w0 ++ evs)) /\
                sleeps evs = n /\ log_count evs = 0).
    { induction n as [|n IH]; intros w0 Hon0.
      - exists []. simpl. unfold ret. rewrite app_nil_r, <- Hon0. destruct w0. repeat split.
      - destruct (quiet_turn w0 Hon0 Hhttp) as (evs1 & Hturn & Hs1 & Hl1).
        simpl. unfold bind at 1. rewrite Hturn.
        destruct (IH (World (repo_path w0) (deployment_url w0) true (cwd w0) (fs w0)
                        (trace w0 ++ evs1)) eq_refl) as (evs2 & Hrest & Hs2 & Hl2).
        cbn [repo_path deployment_url cwd fs trace] in Hrest. rewrite Hrest.
        exists (evs1 ++ evs2). rewrite <- app_assoc, sleeps_app, log_count_app, Hs1, Hs2, Hl1, Hl2.
        repeat split. }
    destruct (Hloop fuel w Hon) as (evs & Hrun & Hs & Hl).
    eexists. split; [exact Hrun|].
    unfold events_since. cbn [trace]. rewrite drop_app_length. repeat split; assumption.
Qed.

End Monitoring.

(** ** Content that is no string *)

Section Truncation.

Context {env : Environment}.



End Truncation.

(** ** The main loop *)

Lemma printed_app (evs1 evs2 : list event) : printed (evs1 ++ evs2) = printed evs1 ++ printed evs2.
Proof.
  induction evs1 as [|e evs1 IH]; [reflexivity|].
  destruct e; simpl; rewrite IH; reflexivity.
Qed.

Section Loop.

Context {env : Environment} {terminal : Terminal}.

(** X18. A line that reads [exit] once stripped and lowered ends the
    main loop: nothing is dispatched, the monitoring flag is cleared,
    and a monitoring thread that looks at the flag afterwards leaves its
    loop without another health check. *)
Theorem exit_stops_loop_and_monitoring (fuel turns : nat) (w : world) (line : string) :
  read_line (length (trace w)) = inr line ->
  py_lower (py_strip line) = "exit" ->
  exists w',
    main_loop (S fuel) w = (inr true, w') /\
    w' = set_monitoring_active false (emit (EvPrint prompt) w) /\
    monitor (S turns) w' = (inr tt, w').
Proof.
  intros Hline Hexit. eexists. split; [|split; [reflexivity|]].
  - simpl. unfold bind at 1. unfold loop_turn, try_except, loop_body.
    unfold bind at 1. unfold input. rewrite Hline, Hexit. reflexivity.
  - reflexivity.
Qed.

(** X19. A line that is not JSON, or a JSON object without ["action"]
    or without ["payload"], reaches no handler: the loop writes
    ["❌ Invalid JSON. Try again."], respectively ["❌ Error: "] and
    the first key that is missing between quotes, changes nothing else
    and goes on. *)
Theorem malformed_line_dispatches_nothing (w : world) (line : string) :
  read_line (length (trace w)) = inr line ->
  (py_lower (py_strip line) =? "exit") = false ->
  (json_loads (py_strip line) = InvalidJSON ->
   loop_turn w
   = (inr true, emit (EvPrint "❌ Invalid JSON. Try again.") (emit (EvPrint prompt) w))) /\
  (forall d k,
     json_loads (py_strip line) = Parsed (PDict d) ->
     first_missing ["action"; "payload"] d = Some k ->
     loop_turn w
     = (inr true, emit (EvPrint ("❌ Error: '" +:+ k +:+ "'")) (emit (EvPrint prompt) w))).
Proof.
  intros Hline Hexit. split.
  - intros Hjson. unfold loop_turn, try_except, loop_body.
    unfold bind at 1. unfold input. rewrite Hline, Hexit, Hjson. reflexivity.
  - intros d k Hjson Hmiss. unfold loop_turn, try_except, loop_body.
    unfold bind at 1. unfold input. rewrite Hline, Hexit, Hjson.
    unfold getitem, lift, py_getitem. simpl in Hmiss.
    destruct (dict_get "action" d) as [a|] eqn:Ha.
    + destruct (dict_get "payload" d) as [p|] eqn:Hp; [discriminate|].
      injection Hmiss as <-. reflexivity.
    + injection Hmiss as <-. reflexivity.
Qed.


Lemma turn_at_end_of_input (w : world) :
  at_end_of_input ->
  exists e,
    loop_turn w
    = (inr true, emit (EvPrint ("❌ Error: " +:+ exn_str e)) (emit (EvPrint prompt) w)).
Proof.
  intros Hend. destruct (Hend (length (trace w))) as [e He]. exists e.
  unfold loop_turn, try_except, loop_body. unfold bind at 1. unfold input. rewrite He.
  reflexivity.
Qed.

(** X21. At the end of its input the main loop does not end: [input]
    raises, the exception is caught like any other, and the loop asks
    again.  However many turns it is given, it has not left the loop,
    has written a prompt and an error in each, and has dispatched
    nothing. *)
Theorem end_of_input_never_leaves_the_loop (fuel : nat) (w : world) :
  at_end_of_input ->
  exists w',
    main_loop fuel w = (inr false, w') /\
    length (printed (events_since w w')) = 2 * fuel /\
    length (events_since w w') = 2 * fuel /\
    fs w' = fs w /\ deployment_url w' = deployment_url w /\
    monitoring_active w' = monitoring_active w.
Proof.
  intros Hend.
  assert (Hloop : forall n w0,
            exists evs,
              main_loop n w0
              = (inr false, World (repo_path w0) (deployment_url w0) (monitoring_active w0)
                              (cwd w0) (fs w0) (trace w0 ++ evs)) /\
              length (printed evs) = 2 * n /\ length evs = 2 * n).
  { induction n as [|n IH]; intros w0.
    - exists []. simpl. unfold ret. rewrite app_nil_r. destruct w0. repeat split.
    - destruct (turn_at_end_of_input w0 Hend) as [e Hturn].
      simpl main_loop. unfold bind at 1. rewrite Hturn.
      destruct (IH (emit (EvPrint ("❌ Error: " +:+ exn_str e)) (emit (EvPrint prompt) w0)))
        as (evs & Hrest & Hp & Hlen).
      rewrite Hrest.
      exists ([EvPrint prompt; EvPrint ("❌ Error: " +:+ exn_str e)] ++ evs).
      cbn [emit repo_path deployment_url monitoring_active cwd fs trace].
      rewrite <- !app_assoc. split; [reflexivity|]. split.
      + simpl. rewrite Hp. lia.
      + simpl. rewrite Hlen. lia. }
  destruct (Hloop fuel w) as (evs & Hrun & Hp & Hlen).
  eexists. split; [exact Hrun|].
  unfold events_since. cbn [trace fs deployment_url monitoring_active].
  rewrite drop_app_length. repeat split; assumption.
Qed.

End Loop.

(** ** Paths that leave the repository, and records *)


Section Outside.

Context {env : Environment}.



End Outside.

(** ** A feature that fails half way *)


Section HalfWay.

Context {env : Environment}.





End HalfWay.

(** ** The whole program *)

Section Program.

Context {env : Environment} {terminal : Terminal}.

Lemma print_all_trace (lines : list string) (w : world) :
  print_all lines w
  = (inr tt, World (repo_path w) (deployment_url w) (monitoring_active w) (cwd w) (fs w)
               (trace w ++ map EvPrint lines)).
Proof.
  revert w. induction lines as [|line rest IH]; intros w.
  - simpl. unfold ret. rewrite app_nil_r. destruct w. reflexivity.
  - cbn [print_all map]. unfold bind, print, effect. rewrite IH.
    cbn [emit repo_path deployment_url monitoring_active cwd fs trace].
    rewrite <- app_assoc. reflexivity.
Qed.

Lemma printed_prints (lines : list string) : printed (map EvPrint lines) = lines.
Proof. induction lines as [|line rest IH]; simpl; congruence. Qed.

Lemma log_count_prints (lines : list string) : log_count (map EvPrint lines) = 0.
Proof. induction lines as [|line rest IH]; simpl; congruence. Qed.

Lemma commands_run_prints (lines : list string) : commands_run (map EvPrint lines) = [].
Proof. induction lines as [|line rest IH]; simpl; congruence. Qed.

(** X25. The bridge is constructed outside the [try] of the loop: when
    [ai_lifecycle.log] is a directory the program ends with that
    exception after the three lines of [setup_bridge], without banner
    or prompt and with the disk as it was.  Otherwise, when the first
    line read is [exit], the program ends normally: it has written the
    three lines, the twelve lines of the banner and one prompt, has
    appended the one record of the construction to the log, has run no
    command and has touched no other file; nothing is deployed and
    monitoring is off. *)
Theorem session_that_exits_at_once (fuel : nat) (dir : list string) (files : filesys)
    (line : string) :
  (is_dir (files !! (dir ++ [log_file])) = true ->
   exists w,
     start_ai_lifecycle_bridge fuel dir files = (inl (OSError IsADirectoryError log_file), w) /\
     length (printed (trace w)) = 3 /\ fs w = files) /\
  (is_dir (files !! (dir ++ [log_file])) = false ->
   read_line 16 = inr line ->
   py_lower (py_strip line) = "exit" ->
   exists w,
     start_ai_lifecycle_bridge (S fuel) dir files = (inr true, w) /\
     printed (trace w)
       = ["🤖 AI FULL-LIFECYCLE BRIDGE ACTIVATED"; "📍 Repo: " +:+ getcwd dir;
          "🔧 Capabilities: Develop → Deploy → Monitor → Evolve"] ++ banner ++ [prompt] /\
     log_count (trace w) = 1 /\
     commands_run (trace w) = [] /\
     deployment_url w = PNone /\ monitoring_active w = false /\
     forall q, q <> dir ++ [log_file] -> fs w !! q = files !! q).
Proof.
  unfold start_ai_lifecycle_bridge. rewrite init_result.
  split; intros Hdir; rewrite Hdir.
  - eexists. split; [reflexivity|]. split; reflexivity.
  - intros Hline Hexit. unfold bind at 1. rewrite print_all_trace.
    cbn [repo_path deployment_url monitoring_active cwd fs trace].
    cbn [main_loop]. unfold bind at 1. unfold loop_turn, try_except, loop_body.
    unfold bind at 1. unfold input.
    cbn [trace]. rewrite length_app, length_map.
    change (read_line 16) with (read_line (4 + length banner)) in Hline.
    cbn [length]. rewrite Hline, Hexit.
    eexists. split; [reflexivity|].
    cbn [emit set_monitoring_active repo_path deployment_url monitoring_active cwd fs trace].
    rewrite !printed_app, !log_count_app, !commands_run_app, printed_prints, log_count_prints,
      commands_run_prints.
    repeat split.
    intros q Hq. apply lookup_insert_ne. congruence.
Qed.

(** X26. A line that is valid JSON but no object (a number, a list, a
    string, [null]), or on which [json.loads] raises something else
    than [JSONDecodeError], reaches no handler: subscripting it raises,
    the loop writes ["❌ Error: "] and the text of the exception,
    changes nothing else and goes on. *)
Theorem non_object_line_dispatches_nothing (w : world) (line : string) :
  read_line (length (trace w)) = inr line ->
  (py_lower (py_strip line) =? "exit") = false ->
  (forall v,
     json_loads (py_strip line) = Parsed v ->
     (forall d, v <> PDict d) ->
     exists msg,
       loop_turn w
       = (inr true,
          emit (EvPrint ("❌ Error: " +:+ exn_str (TypeError msg))) (emit (EvPrint prompt) w))) /\
  (forall e,
     json_loads (py_strip line) = ParseRaised e ->
     loop_turn w
     = (inr true, emit (EvPrint ("❌ Error: " +:+ exn_str e)) (emit (EvPrint prompt) w))).
Proof.
  intros Hline Hexit. split.
  - intros v Hjson Hv. unfold loop_turn, try_except, loop_body.
    unfold bind at 1. unfold input. rewrite Hline, Hexit, Hjson.
    unfold bind at 1. unfold getitem, lift, py_getitem.
    destruct v as [|b|z|s|l|d]; try (eexists; reflexivity).
    exfalso. exact (Hv d eq_refl).
  - intros e Hjson. unfold loop_turn, try_except, loop_body.
    unfold bind at 1. unfold input. rewrite Hline, Hexit, Hjson. reflexivity.
Qed.

End Program.

(** ** The life of the monitoring thread *)

Section ThreadLife.

Context {env : Environment}.




End ThreadLife.

(** ** The further properties at work *)

Lemma monitoring_is_never_switched_off_witness :
  monitoring_active
    (@execute_ai_instruction (sample_env 0 500) (PStr "CHECK_HEALTH") (PDict [])
       monitored_world).2 = true.
Proof.
  apply (@monitoring_is_never_switched_off (sample_env 0 500) monitored_world).
  - apply rtc_once. apply working_dispatch.
  - reflexivity.
Defined.

Lemma disk_is_only_added_to_witness :
  log_writable
    (@execute_ai_instruction (sample_env 0 200) (PStr "CREATE_FILE")
       (PDict [("path", PStr "out/x.txt"); ("content", PStr "hi")]) fresh_world).2 = true.
Proof.
  destruct (@disk_is_only_added_to (sample_env 0 200) fresh_world
              (@execute_ai_instruction (sample_env 0 200) (PStr "CREATE_FILE")
                 (PDict [("path", PStr "out/x.txt"); ("content", PStr "hi")]) fresh_world).2
              (rtc_once _ _ (step_dispatch _ _ _)))
    as (_ & Hlog & _).
  destruct (Hlog eq_refl) as [_ Hw]. exact Hw.
Defined.



Lemma health_check_after_start_monitoring_witness :
  (@check_application_health (sample_env 0 200)
     (@start_monitoring (sample_env 0 200) (PStr "") fresh_world).2).1
  = inr "No deployment URL set".
Proof.
  destruct (@health_check_after_start_monitoring (sample_env 0 200) (PStr "") fresh_world)
    as (w1 & Hstart & _ & _ & Hfalsy & _).
  rewrite Hstart. cbn [snd]. rewrite (Hfalsy eq_refl). reflexivity.
Defined.


Lemma backup_project_names_one_tag_witness :
  exists w',
    @backup_project (sample_env 1 200) fresh_world
    = (inr "💾 Backup created: backup-20240501_120000", w').
Proof.
  destruct (@backup_project_names_one_tag (sample_env 1 200) fresh_world eq_refl
              (fun _ _ => ex_intro _ (Completed "" "" 1) eq_refl))
    as (w' & Hrun & _).
  exists w'. exact Hrun.
Defined.

Lemma run_tests_reports_output_witness :
  exists w',
    @run_tests (sample_env 1 200) fresh_world
    = (inr "🧪 Tests executed: Command executed", w').
Proof.
  destruct (@run_tests_reports_output (sample_env 1 200) fresh_world (Completed "" "" 1)
              eq_refl eq_refl)
    as (w' & _ & _ & Hquiet).
  exists w'. exact (Hquiet eq_refl eq_refl).
Defined.


Lemma auto_fix_database_writes_script_witness :
  exists w',
    @auto_fix_issues (sample_env 0 200) (PStr "database_connection") fresh_world
    = (inr "✅ Database issues addressed", w') /\
    read_file (fs w') (cwd w') "config/fix_database.py" = Some fix_database_script.
Proof.
  destruct (@auto_fix_database_writes_script (sample_env 0 200) fresh_world
              ltac:(vm_compute; reflexivity) ltac:(vm_compute; reflexivity)
              ltac:(vm_compute; reflexivity))
    as (w' & Hrun & Hread & _).
  exists w'. split; assumption.
Defined.





Lemma monitor_runs_until_flag_cleared_witness :
  exists w',
    @monitor (sample_env 0 500) 3 monitored_world = (inr tt, w') /\
    sleeps (events_since monitored_world w') = 3 /\
    log_count (events_since monitored_world w') = 0.
Proof.
  destruct (@monitor_runs_until_flag_cleared (sample_env 0 500) 3 monitored_world) as [_ Hon].
  destruct (Hon eq_refl (fun _ _ => ex_intro _ 500%Z eq_refl)) as (w' & Hrun & Hs & Hl & _).
  exists w'. repeat split; assumption.
Defined.


Lemma exit_stops_loop_and_monitoring_witness :
  exists w',
    @main_loop (sample_env 0 200) (sample_terminal "exit" InvalidJSON) 5 monitored_world
    = (inr true, w') /\
    monitoring_active w' = false.
Proof.
  destruct (@exit_stops_loop_and_monitoring (sample_env 0 200)
              (sample_terminal "exit" InvalidJSON) 4 0 monitored_world "exit" eq_refl eq_refl)
    as (w' & Hrun & -> & _).
  eexists. split; [exact Hrun | reflexivity].
Defined.

Lemma malformed_line_dispatches_nothing_witness :
  @loop_turn (sample_env 0 200) (sample_terminal "{}" (Parsed (PDict []))) fresh_world
  = (inr true, emit (EvPrint "❌ Error: 'action'") (emit (EvPrint prompt) fresh_world)).
Proof.
  destruct (@malformed_line_dispatches_nothing (sample_env 0 200)
              (sample_terminal "{}" (Parsed (PDict []))) fresh_world "{}" eq_refl eq_refl)
    as [_ Hkeys].
  exact (Hkeys [] "action" eq_refl eq_refl).
Defined.


Lemma end_of_input_never_leaves_the_loop_witness :
  exists w',
    @main_loop (sample_env 0 200) closed_terminal 7 fresh_world = (inr false, w') /\
    length (events_since fresh_world w') = 14.
Proof.
  destruct (@end_of_input_never_leaves_the_loop (sample_env 0 200) closed_terminal 7 fresh_world
              (fun _ => ex_intro _ (ExternalError "EOF when reading a line") eq_refl))
    as (w' & Hrun & _ & Hlen & _).
  exists w'. split; assumption.
Defined.




Lemma session_that_exits_at_once_witness :
  exists w,
    @start_ai_lifecycle_bridge (sample_env 0 200) (sample_terminal "exit" InvalidJSON) 5 ["repo"]
      sample_files
    = (inr true, w) /\
    length (printed (trace w)) = 16 /\ monitoring_active w = false.
Proof.
  destruct (@session_that_exits_at_once (sample_env 0 200) (sample_terminal "exit" InvalidJSON)
              4 ["repo"] sample_files "exit") as [_ Hok].
  destruct (Hok ltac:(vm_compute; reflexivity) eq_refl eq_refl)
    as (w & Hrun & Hprinted & _ & _ & _ & Hoff & _).
  exists w. split; [exact Hrun|]. split; [rewrite Hprinted; reflexivity | exact Hoff].
Defined.


Lemma non_object_line_dispatches_nothing_witness :
  exists msg,
    @loop_turn (sample_env 0 200) (sample_terminal "[]" (Parsed (PList []))) fresh_world
    = (inr true,
       emit (EvPrint ("❌ Error: " +:+ msg)) (emit (EvPrint prompt) fresh_world)).
Proof.
  destruct (@non_object_line_dispatches_nothing (sample_env 0 200)
              (sample_terminal "[]" (Parsed (PList []))) fresh_world "[]" eq_refl eq_refl)
    as [Hvalue _].
  destruct (Hvalue (PList []) eq_refl ltac:(discriminate)) as [msg Hturn].
  exists (exn_str (TypeError msg)). exact Hturn.
Defined.
